(** * The libgit2 "status" example (examples/status.c)

    A shallow embedding of the command-line status reporter: the option
    parser [parse_opts], the branch banner [show_branch], the two renderers
    [print_long] and [print_short], and the driver [main].

    Standard output is modelled by a writer, process death (a fatal exit or
    a read through a NULL pointer) by a fault; the repository library is a
    record of the answers its entry points give. *)

From Stdlib Require Import ZArith String Ascii List Bool Lia.
Import ListNotations.

Local Open Scope list_scope.
Local Open Scope string_scope.
Local Open Scope Z_scope.

(** ** C strings *)

(** The characters the source writes with an escape. *)
Definition nl : string := String "010"%char EmptyString.
Definition tab : string := String "009"%char EmptyString.
Definition dq : string := String "034"%char EmptyString.

(** A character as [unsigned char]. *)
Definition uchar (c : ascii) : Z := Z.of_N (N_of_ascii c).

(** [strcmp]: the difference of the first pair of characters that differ;
    the end of a string reads as the terminating NUL. *)
Fixpoint strcmp (a b : string) : Z :=
  match a, b with
  | EmptyString, EmptyString => 0
  | EmptyString, String d _ => 0 - uchar d
  | String c _, EmptyString => uchar c
  | String c a', String d b' =>
      if Ascii.eqb c d
      then (if Ascii.eqb c zero then 0 else strcmp a' b')
      else uchar c - uchar d
  end.

(** [strncmp]: as [strcmp], over at most [n] characters. *)
Fixpoint strncmp (a b : string) (n : nat) {struct n} : Z :=
  match n with
  | O => 0
  | S n' =>
      match a, b with
      | EmptyString, EmptyString => 0
      | EmptyString, String d _ => 0 - uchar d
      | String c _, EmptyString => uchar c
      | String c a', String d b' =>
          if Ascii.eqb c d
          then (if Ascii.eqb c zero then 0 else strncmp a' b' n')
          else uchar c - uchar d
      end
  end.

Definition strlen (s : string) : nat := String.length s.

(** Pointer arithmetic on a string: [s + n], for [n] within the string. *)
Fixpoint str_advance (s : string) (n : nat) {struct n} : string :=
  match n, s with
  | O, _ => s
  | S n', String _ s' => str_advance s' n'
  | S _, EmptyString => EmptyString
  end.

(** [a[0]], the NUL of an empty string included. *)
Definition first_char (a : string) : ascii :=
  match a with
  | String c _ => c
  | EmptyString => zero
  end.

(** ** Standard output and process death *)

Inductive fault : Type :=
| NullDeref
    (* a member read through a NULL pointer *)
| NullString
    (* a NULL pointer passed where printf expects a string *)
| Fatal (message : string) (extra : option string).
    (* fatal() or a failed check_lg2(): diagnostic, then exit *)

Inductive res (A : Type) : Type :=
| Ret (a : A)
| Fault (f : fault).
Arguments Ret {A} a.
Arguments Fault {A} f.

(** A computation: what it wrote to standard output, and how it ended. *)
Definition io (A : Type) : Type := (string * res A)%type.

Definition ret {A : Type} (a : A) : io A := (EmptyString, Ret a).

Definition crash {A : Type} (f : fault) : io A := (EmptyString, Fault f).

Definition bind {A B : Type} (m : io A) (k : A -> io B) : io B :=
  match m with
  | (out, Ret a) => let (out', r) := k a in (out ++ out', r)
  | (out, Fault f) => (out, Fault f)
  end.

Declare Scope io_scope.
Delimit Scope io_scope with io.
Notation "x <- m ;; k" := (bind m (fun x => k))
  (at level 61, m at next level, right associativity) : io_scope.
Notation "m ;; k" := (bind m (fun _ => k))
  (at level 61, right associativity) : io_scope.
Local Open Scope io_scope.

Definition stdout {A : Type} (m : io A) : string := fst m.
Definition outcome {A : Type} (m : io A) : res A := snd m.

(** [p->...]: reading through a pointer that may be NULL. *)
Definition deref {A : Type} (p : option A) : io A :=
  match p with
  | Some a => ret a
  | None => crash NullDeref
  end.

(** A [for] loop over the elements of a list, threading the locals [s]. *)
Fixpoint for_each {E S : Type} (body : E -> S -> io S) (l : list E) (s : S)
  : io S :=
  match l with
  | [] => ret s
  | e :: l' => s' <- body e s ;; for_each body l' s'
  end.

(** *** printf *)

Inductive printf_arg : Type :=
| Chr (c : ascii)
| Str (s : option string).

(** The text a format produces; [None] when a [%s] is handed NULL (or the
    arguments do not fit the format, which no call below does). Only the
    conversions the source uses, [%s] and [%c], are read. *)
Fixpoint formatted (fmt : string) (args : list printf_arg) : option string :=
  match fmt with
  | EmptyString => Some EmptyString
  | String c rest =>
      if Ascii.eqb c "%"%char then
        match rest with
        | String d rest' =>
            if Ascii.eqb d "s"%char then
              match args with
              | Str (Some s) :: args' => option_map (append s) (formatted rest' args')
              | _ => None
              end
            else if Ascii.eqb d "c"%char then
              match args with
              | Chr x :: args' => option_map (String x) (formatted rest' args')
              | _ => None
              end
            else None
        | EmptyString => None
        end
      else option_map (String c) (formatted rest args)
  end.

Definition printf (fmt : string) (args : list printf_arg) : io unit :=
  match formatted fmt args with
  | Some text => (text, Ret tt)
  | None => crash NullString
  end.

(** ** What the source takes from headers

    Modelled from the spec: the constants status.c takes from the library's
    headers (git2/status.h, git2/errors.h, git2/submodule.h, git2/types.h)
    and the exit status of common.h's fatal() and check_lg2(); these files
    are not among the sources at hand. The spec gives the entry status as a bitmask
    over named flags, one bit each, with Current the empty mask; Unborn and
    NotFound as failures of HEAD resolution, so not the success value 0;
    and a fatal exit as an exit with a status other than 0. The bit
    positions and values themselves are left open here. *)

Inductive status_flag : Type :=
| IndexNew | IndexModified | IndexDeleted | IndexRenamed | IndexTypechange
| WtNew | WtModified | WtDeleted | WtTypechange | WtRenamed
| Ignored | Conflicted.

Class Git2Constants : Type := {
  (* git_status_t: the position of each flag's bit in an unsigned int *)
  status_bit : status_flag -> Z;
  status_bit_range : forall f, 0 <= status_bit f < 32;
  status_bit_inj : forall f g, status_bit f = status_bit g -> f = g;
  (* git_error_code *)
  GIT_EUNBORNBRANCH : Z;
  GIT_ENOTFOUND : Z;
  GIT_EUNBORNBRANCH_failure : GIT_EUNBORNBRANCH <> 0;
  GIT_ENOTFOUND_failure : GIT_ENOTFOUND <> 0;
  (* git_filemode_t *)
  GIT_FILEMODE_COMMIT : Z;
  (* git_submodule_status_t *)
  GIT_SUBMODULE_STATUS_WD_MODIFIED : Z;
  GIT_SUBMODULE_STATUS_WD_INDEX_MODIFIED : Z;
  GIT_SUBMODULE_STATUS_WD_WD_MODIFIED : Z;
  GIT_SUBMODULE_STATUS_WD_UNTRACKED : Z;
  (* git_status_show_t, git_status_opt_t, GIT_STATUS_OPTIONS_VERSION *)
  GIT_STATUS_SHOW_INDEX_AND_WORKDIR : Z;
  GIT_STATUS_OPT_INCLUDE_UNTRACKED : Z;
  GIT_STATUS_OPT_INCLUDE_IGNORED : Z;
  GIT_STATUS_OPT_EXCLUDE_SUBMODULES : Z;
  GIT_STATUS_OPT_RECURSE_UNTRACKED_DIRS : Z;
  GIT_STATUS_OPT_RENAMES_HEAD_TO_INDEX : Z;
  GIT_STATUS_OPT_SORT_CASE_SENSITIVELY : Z;
  GIT_STATUS_OPTIONS_VERSION : Z;
  (* the status fatal() and check_lg2() hand to exit() *)
  EXIT_FATAL : Z;
  EXIT_FATAL_failure : EXIT_FATAL <> 0
}.

(** ** The data the library hands over *)

Record git_diff_file : Type := {
  path : option string;          (* const char *path; may be NULL *)
  mode : Z
}.

Record git_diff_delta : Type := {
  old_file : git_diff_file;
  new_file : git_diff_file
}.

Record git_status_entry : Type := {
  status : Z;                                  (* git_status_t bits *)
  head_to_index : option git_diff_delta;       (* may be NULL *)
  index_to_workdir : option git_diff_delta     (* may be NULL *)
}.

Definition git_status_list : Type := list git_status_entry.

Record git_strarray : Type := {
  strings : list string;
  count : Z
}.

Record git_status_options : Type := {
  version : Z;
  show : Z;
  flags : Z;
  so_pathspec : git_strarray
}.

Record git_reference : Type := {
  git_reference_name : string
}.

(** A submodule handle is opaque to the example: it only passes it on. *)
Definition git_submodule : Type := string.

(** A repository, as the answers of the library calls made on it. A call
    that returns an [int] and fills an out-parameter is a pair: the value
    returned, and what the out-parameter points to afterwards. *)
Record git_repository : Type := {
  git_repository_is_bare : bool;
  git_repository_path : string;
  git_repository_head : Z * option git_reference;
  git_status_list_new : git_status_options -> Z * option git_status_list;
  git_submodule_lookup : option string -> Z * option git_submodule;
  git_submodule_status : option git_submodule -> Z * Z
}.

(** The library itself: which repository, if any, a path opens. *)
Record libgit2 : Type := {
  git_repository_open_ext : string -> Z * option git_repository
}.

(** ** The program *)

(** enum { FORMAT_DEFAULT, FORMAT_LONG, FORMAT_SHORT, FORMAT_PORCELAIN } *)
Definition FORMAT_DEFAULT : Z := 0.
Definition FORMAT_LONG : Z := 1.
Definition FORMAT_SHORT : Z := 2.
Definition FORMAT_PORCELAIN : Z := 3.

Definition MAX_PATHSPEC : Z := 8.

(** struct opts. The array [pathspec] with its fill count [npaths] is the
    list of the slots written so far, next to the count. *)
Record opts : Type := {
  statusopt : git_status_options;
  repodir : string;
  pathspec : list string;
  npaths : Z;
  format : Z;
  zterm : Z;
  showbranch : Z
}.

Definition set_flags (so : git_status_options) (f : Z) : git_status_options :=
  {| version := version so; show := show so; flags := f;
     so_pathspec := so_pathspec so |}.

Definition set_show (so : git_status_options) (v : Z) : git_status_options :=
  {| version := version so; show := v; flags := flags so;
     so_pathspec := so_pathspec so |}.

Definition set_so_pathspec (so : git_status_options) (p : git_strarray)
  : git_status_options :=
  {| version := version so; show := show so; flags := flags so;
     so_pathspec := p |}.

Definition set_statusopt (o : opts) (so : git_status_options) : opts :=
  {| statusopt := so; repodir := repodir o; pathspec := pathspec o;
     npaths := npaths o; format := format o; zterm := zterm o;
     showbranch := showbranch o |}.

Definition set_repodir (o : opts) (d : string) : opts :=
  {| statusopt := statusopt o; repodir := d; pathspec := pathspec o;
     npaths := npaths o; format := format o; zterm := zterm o;
     showbranch := showbranch o |}.

Definition push_pathspec (o : opts) (a : string) : opts :=
  {| statusopt := statusopt o; repodir := repodir o;
     pathspec := (pathspec o ++ [a])%list;
     npaths := npaths o + 1; format := format o; zterm := zterm o;
     showbranch := showbranch o |}.

Definition set_format (o : opts) (f : Z) : opts :=
  {| statusopt := statusopt o; repodir := repodir o; pathspec := pathspec o;
     npaths := npaths o; format := f; zterm := zterm o;
     showbranch := showbranch o |}.

Definition set_zterm (o : opts) (z : Z) : opts :=
  {| statusopt := statusopt o; repodir := repodir o; pathspec := pathspec o;
     npaths := npaths o; format := format o; zterm := z;
     showbranch := showbranch o |}.

Definition set_showbranch (o : opts) (b : Z) : opts :=
  {| statusopt := statusopt o; repodir := repodir o; pathspec := pathspec o;
     npaths := npaths o; format := format o; zterm := zterm o;
     showbranch := b |}.

(** [x & flag], read as a condition. *)
Definition test (x flag : Z) : bool := negb (Z.land x flag =? 0).

(** [!strcmp(a, b)] *)
Definition streq (a b : string) : bool := strcmp a b =? 0.

Section Status.

Context {git2 : Git2Constants}.

Definition GIT_STATUS_CURRENT : Z := 0.
Definition GIT_STATUS_INDEX_NEW : Z := Z.shiftl 1 (status_bit IndexNew).
Definition GIT_STATUS_INDEX_MODIFIED : Z := Z.shiftl 1 (status_bit IndexModified).
Definition GIT_STATUS_INDEX_DELETED : Z := Z.shiftl 1 (status_bit IndexDeleted).
Definition GIT_STATUS_INDEX_RENAMED : Z := Z.shiftl 1 (status_bit IndexRenamed).
Definition GIT_STATUS_INDEX_TYPECHANGE : Z := Z.shiftl 1 (status_bit IndexTypechange).
Definition GIT_STATUS_WT_NEW : Z := Z.shiftl 1 (status_bit WtNew).
Definition GIT_STATUS_WT_MODIFIED : Z := Z.shiftl 1 (status_bit WtModified).
Definition GIT_STATUS_WT_DELETED : Z := Z.shiftl 1 (status_bit WtDeleted).
Definition GIT_STATUS_WT_TYPECHANGE : Z := Z.shiftl 1 (status_bit WtTypechange).
Definition GIT_STATUS_WT_RENAMED : Z := Z.shiftl 1 (status_bit WtRenamed).
Definition GIT_STATUS_IGNORED : Z := Z.shiftl 1 (status_bit Ignored).
Definition GIT_STATUS_CONFLICTED : Z := Z.shiftl 1 (status_bit Conflicted).

(** Modelled from the spec: fatal() and check_lg2() of common.h, which is
    not among the sources at hand. Both put a diagnostic (the action that failed and an
    optional detail) on standard error and leave the process with a status
    other than 0; check_lg2 does so only for an error other than 0. *)
Definition fatal {A : Type} (message : string) (extra : option string) : io A :=
  crash (Fatal message extra).

Definition check_lg2 (error : Z) (message : string) (extra : option string)
  : io unit :=
  if error =? 0 then ret tt else fatal message extra.

(** *** parse_opts *)

(** One turn of the loop of parse_opts, on the argument [a]. *)
Definition parse_arg (a : string) (o : opts) : io opts :=
  if negb (Ascii.eqb (first_char a) "-"%char) then
    if npaths o <? MAX_PATHSPEC
    then ret (push_pathspec o a)
    else fatal "Example only supports a limited pathspec" None
  else if streq a "-s" || streq a "--short" then
    ret (set_format o FORMAT_SHORT)
  else if streq a "--long" then
    ret (set_format o FORMAT_LONG)
  else if streq a "--porcelain" then
    ret (set_format o FORMAT_PORCELAIN)
  else if streq a "-b" || streq a "--branch" then
    ret (set_showbranch o 1)
  else if streq a "-z" then
    let o := set_zterm o 1 in
    if format o =? FORMAT_DEFAULT
    then ret (set_format o FORMAT_PORCELAIN)
    else ret o
  else if streq a "--ignored" then
    ret (set_statusopt o (set_flags (statusopt o)
      (Z.lor (flags (statusopt o)) GIT_STATUS_OPT_INCLUDE_IGNORED)))
  else if streq a "-uno" || streq a "--untracked-files=no" then
    ret (set_statusopt o (set_flags (statusopt o)
      (Z.land (flags (statusopt o)) (Z.lnot GIT_STATUS_OPT_INCLUDE_UNTRACKED))))
  else if streq a "-unormal" || streq a "--untracked-files=normal" then
    ret (set_statusopt o (set_flags (statusopt o)
      (Z.lor (flags (statusopt o)) GIT_STATUS_OPT_INCLUDE_UNTRACKED)))
  else if streq a "-uall" || streq a "--untracked-files=all" then
    ret (set_statusopt o (set_flags (statusopt o)
      (Z.lor (flags (statusopt o))
         (Z.lor GIT_STATUS_OPT_INCLUDE_UNTRACKED
                GIT_STATUS_OPT_RECURSE_UNTRACKED_DIRS))))
  else if streq a "--ignore-submodules=all" then
    ret (set_statusopt o (set_flags (statusopt o)
      (Z.lor (flags (statusopt o)) GIT_STATUS_OPT_EXCLUDE_SUBMODULES)))
  else if strncmp a "--git-dir=" (strlen "--git-dir=") =? 0 then
    ret (set_repodir o (str_advance a (strlen "--git-dir=")))
  else
    (check_lg2 (-1) "Unsupported option" (Some a) ;; ret o).

(** The loop runs over argv[1] .. argv[argc - 1]. *)
Definition parse_opts (o : opts) (argv : list string) : io opts :=
  o <- for_each parse_arg (List.tl argv) o ;;
  let o := if format o =? FORMAT_DEFAULT then set_format o FORMAT_LONG else o in
  let o := if format o =? FORMAT_LONG then set_showbranch o 1 else o in
  let o :=
    if 0 <? npaths o
    then set_statusopt o (set_so_pathspec (statusopt o)
           {| strings := pathspec o; count := npaths o |})
    else o in
  ret o.

(** *** show_branch *)

Definition show_branch (repo : git_repository) (format : Z) : io unit :=
  let '(error, head) := git_repository_head repo in
  branch <-
    (if (error =? GIT_EUNBORNBRANCH) || (error =? GIT_ENOTFOUND) then
       ret None
     else if error =? 0 then
       head <- deref head ;;
       let branch := git_reference_name head in
       if strncmp branch "refs/heads/" (strlen "refs/heads/") =? 0
       then ret (Some (str_advance branch (strlen "refs/heads/")))
       else ret (Some branch)
     else
       (check_lg2 error "failed to get current branch" None ;; ret None)) ;;
  if format =? FORMAT_LONG then
    printf ("# On branch %s" ++ nl)
      [Str (Some (match branch with
                  | Some b => b
                  | None => "Not currently on any branch."
                  end))]
  else
    printf ("## %s" ++ nl)
      [Str (Some (match branch with
                  | Some b => b
                  | None => "HEAD (no branch)"
                  end))].

(** *** print_long *)

(** The chain of assignments to [istatus] in the first loop. *)
Definition long_istatus (st : Z) : option string :=
  let istatus := None in
  let istatus := if test st GIT_STATUS_INDEX_NEW then Some "new file: " else istatus in
  let istatus := if test st GIT_STATUS_INDEX_MODIFIED then Some "modified: " else istatus in
  let istatus := if test st GIT_STATUS_INDEX_DELETED then Some "deleted:  " else istatus in
  let istatus := if test st GIT_STATUS_INDEX_RENAMED then Some "renamed:  " else istatus in
  let istatus := if test st GIT_STATUS_INDEX_TYPECHANGE then Some "typechange:" else istatus in
  istatus.

(** The chain of assignments to [wstatus] in the second loop. *)
Definition long_wstatus (st : Z) : option string :=
  let wstatus := None in
  let wstatus := if test st GIT_STATUS_WT_MODIFIED then Some "modified: " else wstatus in
  let wstatus := if test st GIT_STATUS_WT_DELETED then Some "deleted:  " else wstatus in
  let wstatus := if test st GIT_STATUS_WT_RENAMED then Some "renamed:  " else wstatus in
  let wstatus := if test st GIT_STATUS_WT_TYPECHANGE then Some "typechange:" else wstatus in
  wstatus.

(** The line of one change: both paths when they are there and differ,
    else whichever is there. *)
Definition print_change (glyph : string) (delta : git_diff_delta) : io unit :=
  let old_path := path (old_file delta) in
  let new_path := path (new_file delta) in
  if match old_path, new_path with
     | Some o, Some n => negb (strcmp o n =? 0)
     | _, _ => false
     end
  then printf ("#" ++ tab ++ "%s  %s -> %s" ++ nl)
         [Str (Some glyph); Str old_path; Str new_path]
  else printf ("#" ++ tab ++ "%s  %s" ++ nl)
         [Str (Some glyph);
          Str (match old_path with Some _ => old_path | None => new_path end)].

(** First loop, one entry; the locals are [header] and [rm_in_workdir]. *)
Definition long_index_entry (s : git_status_entry) (locals : bool * bool)
  : io (bool * bool) :=
  let '(header, rm_in_workdir) := locals in
  if status s =? GIT_STATUS_CURRENT then ret (header, rm_in_workdir) else
  let rm_in_workdir :=
    if test (status s) GIT_STATUS_WT_DELETED then true else rm_in_workdir in
  match long_istatus (status s) with
  | None => ret (header, rm_in_workdir)
  | Some istatus =>
      header <-
        (if negb header then
           printf ("# Changes to be committed:" ++ nl) [] ;;
           printf ("#   (use " ++ dq ++ "git reset HEAD <file>..." ++ dq
                   ++ " to unstage)" ++ nl) [] ;;
           printf ("#" ++ nl) [] ;;
           ret true
         else ret header) ;;
      delta <- deref (head_to_index s) ;;
      print_change istatus delta ;;
      ret (header, rm_in_workdir)
  end.

(** Second loop, one entry; the local is [header]. *)
Definition long_workdir_entry (rm_in_workdir : bool) (s : git_status_entry)
  (header : bool) : io bool :=
  if (status s =? GIT_STATUS_CURRENT)
     || match index_to_workdir s with None => true | Some _ => false end
  then ret header else
  match long_wstatus (status s) with
  | None => ret header
  | Some wstatus =>
      header <-
        (if negb header then
           printf ("# Changes not staged for commit:" ++ nl) [] ;;
           printf ("#   (use " ++ dq ++ "git add%s <file>..." ++ dq
                   ++ " to update what will be committed)" ++ nl)
             [Str (Some (if rm_in_workdir then "/rm" else ""))] ;;
           printf ("#   (use " ++ dq ++ "git checkout -- <file>..." ++ dq
                   ++ " to discard changes in working directory)" ++ nl) [] ;;
           printf ("#" ++ nl) [] ;;
           ret true
         else ret header) ;;
      delta <- deref (index_to_workdir s) ;;
      print_change wstatus delta ;;
      ret header
  end.

(** Third loop, one entry. *)
Definition long_untracked_entry (s : git_status_entry) (header : bool)
  : io bool :=
  if status s =? GIT_STATUS_WT_NEW then
    header <-
      (if negb header then
         printf ("# Untracked files:" ++ nl) [] ;;
         printf ("#   (use " ++ dq ++ "git add <file>..." ++ dq
                 ++ " to include in what will be committed)" ++ nl) [] ;;
         printf ("#" ++ nl) [] ;;
         ret true
       else ret header) ;;
    delta <- deref (index_to_workdir s) ;;
    printf ("#" ++ tab ++ "%s" ++ nl) [Str (path (old_file delta))] ;;
    ret header
  else ret header.

(** Fourth loop, one entry. *)
Definition long_ignored_entry (s : git_status_entry) (header : bool)
  : io bool :=
  if status s =? GIT_STATUS_IGNORED then
    header <-
      (if negb header then
         printf ("# Ignored files:" ++ nl) [] ;;
         printf ("#   (use " ++ dq ++ "git add -f <file>..." ++ dq
                 ++ " to include in what will be committed)" ++ nl) [] ;;
         printf ("#" ++ nl) [] ;;
         ret true
       else ret header) ;;
    delta <- deref (index_to_workdir s) ;;
    printf ("#" ++ tab ++ "%s" ++ nl) [Str (path (old_file delta))] ;;
    ret header
  else ret header.

(** The first loop with the lines that close it: it yields
    [changes_in_index] and [rm_in_workdir]. *)
Definition long_index_pass (status : git_status_list) : io (bool * bool) :=
  locals <- for_each long_index_entry status (false, false) ;;
  let '(header, rm_in_workdir) := locals in
  if header
  then (printf ("#" ++ nl) [] ;; ret (true, rm_in_workdir))
  else ret (false, rm_in_workdir).

(** The second loop with the lines that close it: it yields
    [changed_in_workdir]. *)
Definition long_workdir_pass (rm_in_workdir : bool) (status : git_status_list)
  : io bool :=
  header <- for_each (long_workdir_entry rm_in_workdir) status false ;;
  if header
  then (printf ("#" ++ nl) [] ;; ret true)
  else ret false.

Definition print_long (repo : git_repository) (status : git_status_list)
  : io unit :=
  locals <- long_index_pass status ;;
  let '(changes_in_index, rm_in_workdir) := locals in
  changed_in_workdir <- long_workdir_pass rm_in_workdir status ;;
  for_each long_untracked_entry status false ;;
  for_each long_ignored_entry status false ;;
  if negb changes_in_index && changed_in_workdir
  then printf ("no changes added to commit (use " ++ dq ++ "git add" ++ dq
               ++ " and/or " ++ dq ++ "git commit -a" ++ dq ++ ")" ++ nl) []
  else ret tt.

(** *** print_short *)

(** The chain of assignments to [istatus] and [wstatus]. *)
Definition short_glyphs (st : Z) : ascii * ascii :=
  let istatus := " "%char in
  let wstatus := " "%char in
  let istatus := if test st GIT_STATUS_INDEX_NEW then "A"%char else istatus in
  let istatus := if test st GIT_STATUS_INDEX_MODIFIED then "M"%char else istatus in
  let istatus := if test st GIT_STATUS_INDEX_DELETED then "D"%char else istatus in
  let istatus := if test st GIT_STATUS_INDEX_RENAMED then "R"%char else istatus in
  let istatus := if test st GIT_STATUS_INDEX_TYPECHANGE then "T"%char else istatus in
  let '(istatus, wstatus) :=
    if test st GIT_STATUS_WT_NEW
    then ((if Ascii.eqb istatus " " then "?"%char else istatus), "?"%char)
    else (istatus, wstatus) in
  let wstatus := if test st GIT_STATUS_WT_MODIFIED then "M"%char else wstatus in
  let wstatus := if test st GIT_STATUS_WT_DELETED then "D"%char else wstatus in
  let wstatus := if test st GIT_STATUS_WT_RENAMED then "R"%char else wstatus in
  let wstatus := if test st GIT_STATUS_WT_TYPECHANGE then "T"%char else wstatus in
  if test st GIT_STATUS_IGNORED
  then ("!"%char, "!"%char)
  else (istatus, wstatus).

(** The submodule note [extra]. *)
Definition short_extra (repo : git_repository) (s : git_status_entry) : string :=
  match index_to_workdir s with
  | Some delta =>
      if mode (new_file delta) =? GIT_FILEMODE_COMMIT then
        let '(error, sm) := git_submodule_lookup repo (path (new_file delta)) in
        if error =? 0 then
          let '(error, smstatus) := git_submodule_status repo sm in
          if error =? 0 then
            if test smstatus GIT_SUBMODULE_STATUS_WD_MODIFIED then
              " (new commits)"
            else if test smstatus GIT_SUBMODULE_STATUS_WD_INDEX_MODIFIED then
              " (modified content)"
            else if test smstatus GIT_SUBMODULE_STATUS_WD_WD_MODIFIED then
              " (modified content)"
            else if test smstatus GIT_SUBMODULE_STATUS_WD_UNTRACKED then
              " (untracked content)"
            else ""
          else ""
        else ""
      else ""
  | None => ""
  end.

(** The paths [a], [b] and [c]. *)
Definition short_paths (s : git_status_entry)
  : option string * option string * option string :=
  let '(a, b) :=
    match head_to_index s with
    | Some delta => (path (old_file delta), path (new_file delta))
    | None => (None, None)
    end in
  match index_to_workdir s with
  | Some delta =>
      (match a with Some _ => a | None => path (old_file delta) end,
       match b with Some _ => b | None => path (old_file delta) end,
       path (new_file delta))
  | None => (a, b, None)
  end.

(** First loop, one entry. *)
Definition short_entry (repo : git_repository) (s : git_status_entry)
  (_ : unit) : io unit :=
  if status s =? GIT_STATUS_CURRENT then ret tt else
  let '(istatus, wstatus) := short_glyphs (status s) in
  if Ascii.eqb istatus "?" && Ascii.eqb wstatus "?" then ret tt else
  let extra := short_extra repo s in
  let '(a, b, c) := short_paths s in
  if Ascii.eqb istatus "R" then
    if Ascii.eqb wstatus "R" then
      printf ("%c%c %s %s %s%s" ++ nl)
        [Chr istatus; Chr wstatus; Str a; Str b; Str c; Str (Some extra)]
    else
      printf ("%c%c %s %s%s" ++ nl)
        [Chr istatus; Chr wstatus; Str a; Str b; Str (Some extra)]
  else
    if Ascii.eqb wstatus "R" then
      printf ("%c%c %s %s%s" ++ nl)
        [Chr istatus; Chr wstatus; Str a; Str c; Str (Some extra)]
    else
      printf ("%c%c %s%s" ++ nl)
        [Chr istatus; Chr wstatus; Str a; Str (Some extra)].

(** Second loop, one entry. *)
Definition short_untracked_entry (s : git_status_entry) (_ : unit) : io unit :=
  if status s =? GIT_STATUS_WT_NEW then
    delta <- deref (index_to_workdir s) ;;
    printf ("?? %s" ++ nl) [Str (path (old_file delta))]
  else ret tt.

Definition print_short (repo : git_repository) (status : git_status_list)
  : io unit :=
  for_each (short_entry repo) status tt ;;
  for_each short_untracked_entry status tt.

(** *** main *)

(** struct opts o = { GIT_STATUS_OPTIONS_INIT, "." }, then the two
    assignments to o.statusopt that precede parse_opts. *)
Definition GIT_STATUS_OPTIONS_INIT : git_status_options :=
  {| version := GIT_STATUS_OPTIONS_VERSION; show := 0; flags := 0;
     so_pathspec := {| strings := []; count := 0 |} |}.

Definition main_opts : opts :=
  let o :=
    {| statusopt := GIT_STATUS_OPTIONS_INIT; repodir := ".";
       pathspec := []; npaths := 0; format := 0; zterm := 0;
       showbranch := 0 |} in
  let o := set_statusopt o
             (set_show (statusopt o) GIT_STATUS_SHOW_INDEX_AND_WORKDIR) in
  set_statusopt o
    (set_flags (statusopt o)
       (Z.lor GIT_STATUS_OPT_INCLUDE_UNTRACKED
          (Z.lor GIT_STATUS_OPT_RENAMES_HEAD_TO_INDEX
                 GIT_STATUS_OPT_SORT_CASE_SENSITIVELY))).

Definition main (lib : libgit2) (argv : list string) : io Z :=
  o <- parse_opts main_opts argv ;;
  let '(error, repo) := git_repository_open_ext lib (repodir o) in
  check_lg2 error "Could not open repository" (Some (repodir o)) ;;
  repo <- deref repo ;;
  (if git_repository_is_bare repo
   then fatal "Cannot report status on bare repository"
          (Some (git_repository_path repo))
   else ret tt) ;;
  let '(error, status) := git_status_list_new repo (statusopt o) in
  check_lg2 error "Could not get status" None ;;
  status <- deref status ;;
  (if negb (showbranch o =? 0) then show_branch repo (format o) else ret tt) ;;
  (if format o =? FORMAT_LONG
   then print_long repo status
   else print_short repo status) ;;
  ret 0.

(** How the process ends, as the shell sees it: the value main returns,
    the status of a fatal exit, or no exit status at all when the process
    is killed on a bad read. *)
Definition exit_status (r : res Z) : option Z :=
  match r with
  | Ret v => Some v
  | Fault (Fatal _ _) => Some EXIT_FATAL
  | Fault _ => None
  end.

End Status.

(** ** The constants of the library's headers

    The values include/git2/status.h, errors.h, types.h and submodule.h
    give these names (Conflicted is bit 15 in the versions of status.h
    that have it), and the exit(1) of examples/common.c. They serve the
    concrete runs below; the general theorems hold for any values that meet
    [Git2Constants]. *)

Definition libgit2_status_bit (f : status_flag) : Z :=
  match f with
  | IndexNew => 0
  | IndexModified => 1
  | IndexDeleted => 2
  | IndexRenamed => 3
  | IndexTypechange => 4
  | WtNew => 7
  | WtModified => 8
  | WtDeleted => 9
  | WtTypechange => 10
  | WtRenamed => 11
  | Ignored => 14
  | Conflicted => 15
  end.

#[export, refine] Instance libgit2_constants : Git2Constants := {|
  status_bit := libgit2_status_bit;
  GIT_EUNBORNBRANCH := -9;
  GIT_ENOTFOUND := -3;
  GIT_FILEMODE_COMMIT := 57344;                     (* 0160000 *)
  GIT_SUBMODULE_STATUS_WD_MODIFIED := Z.shiftl 1 10;
  GIT_SUBMODULE_STATUS_WD_INDEX_MODIFIED := Z.shiftl 1 11;
  GIT_SUBMODULE_STATUS_WD_WD_MODIFIED := Z.shiftl 1 12;
  GIT_SUBMODULE_STATUS_WD_UNTRACKED := Z.shiftl 1 13;
  GIT_STATUS_SHOW_INDEX_AND_WORKDIR := 0;
  GIT_STATUS_OPT_INCLUDE_UNTRACKED := Z.shiftl 1 0;
  GIT_STATUS_OPT_INCLUDE_IGNORED := Z.shiftl 1 1;
  GIT_STATUS_OPT_EXCLUDE_SUBMODULES := Z.shiftl 1 3;
  GIT_STATUS_OPT_RECURSE_UNTRACKED_DIRS := Z.shiftl 1 4;
  GIT_STATUS_OPT_RENAMES_HEAD_TO_INDEX := Z.shiftl 1 7;
  GIT_STATUS_OPT_SORT_CASE_SENSITIVELY := Z.shiftl 1 9;
  GIT_STATUS_OPTIONS_VERSION := 1;
  EXIT_FATAL := 1
|}.
Proof.
  - intros []; cbn; lia.
  - intros [] []; cbn; intros H; try reflexivity; discriminate H.
  - discriminate.
  - discriminate.
  - discriminate.
Defined.

(** ** Concrete repositories for the runs below *)

Definition file (p : string) : git_diff_file :=
  {| path := Some p; mode := 33188 |}.

Definition same_path (p : string) : git_diff_delta :=
  {| old_file := file p; new_file := file p |}.

Definition no_submodules : option string -> Z * option git_submodule :=
  fun _ => (GIT_ENOTFOUND, None).

(** A repository with HEAD on [head] whose status is [entries], whatever
    the query. *)
Definition repository (head : Z * option git_reference)
  (entries : git_status_list) : git_repository :=
  {| git_repository_is_bare := false;
     git_repository_path := "/repo/.git/";
     git_repository_head := head;
     git_status_list_new := fun _ => (0, Some entries);
     git_submodule_lookup := no_submodules;
     git_submodule_status := fun _ => (-1, 0) |}.

Definition on_branch (name : string) : Z * option git_reference :=
  (0, Some {| git_reference_name := name |}).

(** The library when the current directory is inside [repo]. *)
Definition library_at (repo : git_repository) : libgit2 :=
  {| git_repository_open_ext := fun _ => (0, Some repo) |}.

Definition clean_on_main : git_repository :=
  repository (on_branch "refs/heads/main") [].

(** HEAD cannot be resolved, for a reason other than Unborn or NotFound. *)
Definition head_unreadable : git_repository :=
  repository (-1, None) [].

(** a.txt, unchanged. *)
Definition unchanged : git_status_entry :=
  {| status := GIT_STATUS_CURRENT;
     head_to_index := None; index_to_workdir := None |}.

(** a.txt, new in the index and deleted from the working directory. *)
Definition staged_then_deleted : git_status_entry :=
  {| status := Z.lor GIT_STATUS_INDEX_NEW GIT_STATUS_WT_DELETED;
     head_to_index := Some (same_path "a.txt");
     index_to_workdir := Some (same_path "a.txt") |}.

(** a.txt, deleted from the working directory. *)
Definition deleted_in_workdir : git_status_entry :=
  {| status := GIT_STATUS_WT_DELETED;
     head_to_index := None;
     index_to_workdir := Some (same_path "a.txt") |}.

(** a.txt renamed to b.txt in the index, b.txt modified since. *)
Definition renamed_then_modified : git_status_entry :=
  {| status := Z.lor GIT_STATUS_INDEX_RENAMED GIT_STATUS_WT_MODIFIED;
     head_to_index :=
       Some {| old_file := file "a.txt"; new_file := file "b.txt" |};
     index_to_workdir := Some (same_path "b.txt") |}.

(** u.txt, untracked. *)
Definition untracked : git_status_entry :=
  {| status := GIT_STATUS_WT_NEW;
     head_to_index := None;
     index_to_workdir := Some (same_path "u.txt") |}.

(** c.txt, in conflict and nothing else. *)
Definition conflicted : git_status_entry :=
  {| status := GIT_STATUS_CONFLICTED;
     head_to_index := Some (same_path "c.txt");
     index_to_workdir := None |}.

(** A status with two index-side flags, and the same with Ignored too. *)
Definition modified_and_renamed : Z :=
  Z.lor GIT_STATUS_INDEX_MODIFIED GIT_STATUS_INDEX_RENAMED.

Definition modified_renamed_ignored : Z :=
  Z.lor modified_and_renamed GIT_STATUS_IGNORED.

(** A command line with nine paths. *)
Definition nine_paths : list string :=
  ["status"; "a"; "b"; "c"; "d"; "-s"; "e"; "f"; "g"; "h"; "i"].


(** A bare repository. *)
Definition bare_repository : git_repository :=
  {| git_repository_is_bare := true;
     git_repository_path := "/srv/project.git/";
     git_repository_head := on_branch "refs/heads/main";
     git_status_list_new := fun _ => (-1, None);
     git_submodule_lookup := no_submodules;
     git_submodule_status := fun _ => (-1, 0) |}.

(** build/, ignored. *)
Definition ignored_directory : git_status_entry :=
  {| status := GIT_STATUS_IGNORED;
     head_to_index := None;
     index_to_workdir := Some (same_path "build/") |}.

(** An untracked entry that lacks its delta. *)
Definition untracked_without_delta : git_status_entry :=
  {| status := GIT_STATUS_WT_NEW;
     head_to_index := None; index_to_workdir := None |}.

(** a.txt renamed to b.txt. *)
Definition rename_a_to_b : git_diff_delta :=
  {| old_file := file "a.txt"; new_file := file "b.txt" |}.


(** A command line with eight paths and two options. *)
Definition eight_paths : list string :=
  ["status"; "a"; "b"; "--git-dir=/repo"; "c"; "d"; "-s"; "e"; "f"; "g"; "h"].

(** ** The vocabulary of the statements

    The priority order of the index-side flags and the layout of the lines,
    as the spec words them, and the conditions the theorems speak of. *)

(** Typechange > Renamed > Deleted > Modified > New. *)
Definition index_priority : list status_flag :=
  [IndexTypechange; IndexRenamed; IndexDeleted; IndexModified; IndexNew].

Definition index_flags : list status_flag :=
  [IndexNew; IndexModified; IndexDeleted; IndexRenamed; IndexTypechange].

Definition long_index_glyph (f : status_flag) : option string :=
  match f with
  | IndexNew => Some "new file: "
  | IndexModified => Some "modified: "
  | IndexDeleted => Some "deleted:  "
  | IndexRenamed => Some "renamed:  "
  | IndexTypechange => Some "typechange:"
  | _ => None
  end.

Definition short_index_glyph (f : status_flag) : ascii :=
  match f with
  | IndexNew => "A"
  | IndexModified => "M"
  | IndexDeleted => "D"
  | IndexRenamed => "R"
  | IndexTypechange => "T"
  | _ => " "
  end%char.

(** An argument that is not an option: [a[0] != '-']. *)
Definition non_option (a : string) : bool :=
  negb (Ascii.eqb (first_char a) "-"%char).

(** No NUL among the characters of a string. *)
Fixpoint no_nul (p : string) : bool :=
  match p with
  | EmptyString => true
  | String c p' => negb (Ascii.eqb c zero) && no_nul p'
  end.

(** A line of the short format, as the spec lays it out: the two glyphs,
    then each path after a space, then the submodule note. *)
Definition short_line (x y : ascii) (paths : list string) (extra : string)
  : string :=
  String x (String y
    (List.fold_right (fun p rest => " " ++ p ++ rest) (extra ++ nl) paths)).

(** The paths the spec puts on a short line, by the rename glyphs. *)
Definition short_line_paths (x y : ascii) (a b c : option string)
  : list (option string) :=
  if Ascii.eqb x "R" then
    if Ascii.eqb y "R" then [a; b; c] else [a; b]
  else
    if Ascii.eqb y "R" then [a; c] else [a].

(** The first two lines of the header of the section of unstaged changes,
    as the program writes them. *)
Definition unstaged_title : string := "# Changes not staged for commit:" ++ nl.

Definition unstaged_hint (rm : bool) : string :=
  "#   (use " ++ dq ++ "git add" ++ (if rm then "/rm" else "")
  ++ " <file>..." ++ dq ++ " to update what will be committed)" ++ nl.

(** The second of these lines as the spec prints it, with a closing
    parenthesis after the quoted command. *)
Definition unstaged_hint_as_specified (rm : bool) : string :=
  "#   (use " ++ dq ++ "git add" ++ (if rm then "/rm" else "")
  ++ " <file>..." ++ dq ++ ") to update what will be committed)" ++ nl.

Section Vocabulary.

Context {git2 : Git2Constants}.

(** The mask of one flag. *)
Definition flag_mask (f : status_flag) : Z := Z.shiftl 1 (status_bit f).

(** Whether the flag is set in a status. *)
Definition has (st : Z) (f : status_flag) : bool := test st (flag_mask f).

(** The flag of highest priority that is set, if any. *)
Definition index_winner (st : Z) : option status_flag :=
  List.find (has st) index_priority.

(** How many of the index-side flags are set. *)
Definition index_flags_set (st : Z) : nat :=
  List.length (List.filter (has st) index_flags).

(** Some index-side flag is set. *)
Definition index_side (st : Z) : bool := List.existsb (has st) index_flags.

(** Whether the WtDeleted flag of an entry is set. *)
Definition wt_deleted (s : git_status_entry) : bool := has (status s) WtDeleted.

(** The deltas the long renderer reads without a test: that of the index
    side on an entry with an index-side flag, that of the worktree side on
    an entry whose status is WtNew alone or Ignored alone. *)
Definition long_deltas_present (s : git_status_entry) : Prop :=
  (index_side (status s) = true -> head_to_index s <> None) /\
  (status s = GIT_STATUS_WT_NEW \/ status s = GIT_STATUS_IGNORED ->
   index_to_workdir s <> None).

(** The delta the short renderer reads without a test. *)
Definition short_deltas_present (s : git_status_entry) : Prop :=
  status s = GIT_STATUS_WT_NEW -> index_to_workdir s <> None.

(** What has been written once the header of the section is out. *)
Definition unstaged_started (rm : bool) (out : string) : Prop :=
  exists tail, out = unstaged_title ++ unstaged_hint rm ++ tail.

(** The fill count is the number of paths stored, within the array. *)
Definition paths_counted (o : opts) : Prop :=
  npaths o = Z.of_nat (List.length (pathspec o)) /\ npaths o <= MAX_PATHSPEC.

(** The diagnostics of the two errors of use of the command line. *)
Definition cli_misuse (message : string) : Prop :=
  message = "Example only supports a limited pathspec" \/
  message = "Unsupported option".

(** A status list that reports no change. *)
Definition clean (entries : git_status_list) : Prop :=
  Forall (fun e => status e = GIT_STATUS_CURRENT) entries.

(** main, once its options are parsed. *)
Definition run (lib : libgit2) (o : opts) : io Z :=
  let '(error, repo) := git_repository_open_ext lib (repodir o) in
  check_lg2 error "Could not open repository" (Some (repodir o)) ;;
  repo <- deref repo ;;
  (if git_repository_is_bare repo
   then fatal "Cannot report status on bare repository"
          (Some (git_repository_path repo))
   else ret tt) ;;
  let '(error, status) := git_status_list_new repo (statusopt o) in
  check_lg2 error "Could not get status" None ;;
  status <- deref status ;;
  (if negb (showbranch o =? 0) then show_branch repo (format o) else ret tt) ;;
  (if format o =? FORMAT_LONG
   then print_long repo status
   else print_short repo status) ;;
  ret 0.


(** The settings of a struct opts that main can act on: a format chosen,
    the branch banner on in the long format, flags that are 0 or 1. *)
Definition opts_normal (o : opts) : Prop :=
  (format o = FORMAT_LONG \/ format o = FORMAT_SHORT \/
   format o = FORMAT_PORCELAIN) /\
  (format o = FORMAT_LONG -> showbranch o = 1) /\
  (showbranch o = 0 \/ showbranch o = 1) /\
  (zterm o = 0 \/ zterm o = 1).


(** The settings while the command line is read: no format yet, perhaps. *)
Definition opts_in_range (o : opts) : Prop :=
  (format o = FORMAT_DEFAULT \/ format o = FORMAT_LONG \/
   format o = FORMAT_SHORT \/ format o = FORMAT_PORCELAIN) /\
  (showbranch o = 0 \/ showbranch o = 1) /\
  (zterm o = 0 \/ zterm o = 1).

(** Arguments as C strings: no NUL inside. *)
Definition c_strings (args : list string) : Prop :=
  Forall (fun a => no_nul a = true) args.

(** The format an argument names, if it names one. *)
Definition format_option (a : string) : option Z :=
  if String.eqb a "-s" || String.eqb a "--short" then Some FORMAT_SHORT
  else if String.eqb a "--long" then Some FORMAT_LONG
  else if String.eqb a "--porcelain" then Some FORMAT_PORCELAIN
  else None.

(** The format named last on a command line, if any is. *)
Fixpoint last_format_option (args : list string) : option Z :=
  match args with
  | [] => None
  | a :: rest =>
      match last_format_option rest with
      | Some f => Some f
      | None => format_option a
      end
  end.

(** The format of a command line: the one named last; with none named,
    porcelain if -z is given and long otherwise. *)
Definition chosen_format (args : list string) : Z :=
  match last_format_option args with
  | Some f => f
  | None =>
      if List.existsb (fun a => String.eqb a "-z") args
      then FORMAT_PORCELAIN
      else FORMAT_LONG
  end.


(** An argument of the form --git-dir=<path>. *)
Definition names_git_dir (a : string) : Prop :=
  exists dir, a = "--git-dir=" ++ dir.


(** Settings between which a run cannot tell: all the same but zterm,
    which nothing reads, and the format, which may be short for the one
    and porcelain for the other. *)
Definition short_or_porcelain (f : Z) : Prop :=
  f = FORMAT_SHORT \/ f = FORMAT_PORCELAIN.

Definition same_run (o o' : opts) : Prop :=
  statusopt o = statusopt o' /\ repodir o = repodir o' /\
  pathspec o = pathspec o' /\ npaths o = npaths o' /\
  showbranch o = showbranch o' /\
  (format o = format o' \/
   short_or_porcelain (format o) /\ short_or_porcelain (format o')).

Definition same_parse (m m' : io opts) : Prop :=
  match m, m' with
  | (out, Ret o), (out', Ret o') => out = out' /\ same_run o o'
  | (out, Fault f), (out', Fault f') => out = out' /\ f = f'
  | _, _ => False
  end.


(** The worktree-side flags the long renderer reads in its second pass. *)
Definition wt_flags : list status_flag :=
  [WtModified; WtDeleted; WtRenamed; WtTypechange].

(** An entry the first pass of the long renderer lists. *)
Definition staged (s : git_status_entry) : bool := index_side (status s).

(** An entry the second pass of the long renderer lists. *)
Definition unstaged (s : git_status_entry) : bool :=
  match index_to_workdir s with
  | Some _ => List.existsb (has (status s)) wt_flags
  | None => false
  end.

(** The last line of the long format, when it is written. *)
Definition long_trailer : string :=
  "no changes added to commit (use " ++ dq ++ "git add" ++ dq
  ++ " and/or " ++ dq ++ "git commit -a" ++ dq ++ ")" ++ nl.

(** The four passes of print_long, up to its last line: they yield
    [changes_in_index] and [changed_in_workdir]. *)
Definition long_sections (status : git_status_list) : io (bool * bool) :=
  locals <- long_index_pass status ;;
  let '(changes_in_index, rm_in_workdir) := locals in
  changed_in_workdir <- long_workdir_pass rm_in_workdir status ;;
  for_each long_untracked_entry status false ;;
  for_each long_ignored_entry status false ;;
  ret (changes_in_index, changed_in_workdir).


(** A line of a change in the long format, as it reads: the glyph, the
    path, and the new path after an arrow when the two differ. *)
Definition change_line (glyph old_path new_path : string) : string :=
  "#" ++ tab ++ glyph ++ "  " ++ old_path
  ++ (if String.eqb old_path new_path then "" else " -> " ++ new_path) ++ nl.


(** The entries both renderers list as untracked, and the path they print
    for one. *)
Definition untracked_entries (l : git_status_list) : git_status_list :=
  List.filter (fun s => status s =? GIT_STATUS_WT_NEW) l.

Definition old_path_of (s : git_status_entry) : option string :=
  match index_to_workdir s with
  | Some delta => path (old_file delta)
  | None => None
  end.

(** One line for each path, in order. *)
Definition lines (line : string -> string) (paths : list string) : string :=
  List.fold_right (fun p rest => line p ++ rest) "" paths.

Definition short_untracked_line (p : string) : string := "?? " ++ p ++ nl.

Definition long_untracked_line (p : string) : string := "#" ++ tab ++ p ++ nl.

Definition untracked_header : string :=
  "# Untracked files:" ++ nl
  ++ "#   (use " ++ dq ++ "git add <file>..." ++ dq
  ++ " to include in what will be committed)" ++ nl
  ++ "#" ++ nl.

(** The faults that are not a fatal exit. *)
Definition bad_read (f : fault) : Prop := f = NullDeref \/ f = NullString.


(** What an argument says about untracked files, if it says anything. *)
Definition untracked_option (a : string) : option bool :=
  if String.eqb a "-uno" || String.eqb a "--untracked-files=no"
  then Some false
  else if String.eqb a "-unormal" || String.eqb a "--untracked-files=normal"
          || String.eqb a "-uall" || String.eqb a "--untracked-files=all"
  then Some true
  else None.

Fixpoint last_untracked_option (args : list string) : option bool :=
  match args with
  | [] => None
  | a :: rest =>
      match last_untracked_option rest with
      | Some b => Some b
      | None => untracked_option a
      end
  end.

(** Untracked files are asked for unless the last word on them is no. *)
Definition untracked_wanted (args : list string) : bool :=
  match last_untracked_option args with
  | Some b => b
  | None => true
  end.

(** What the theorem on the IncludeUntracked flag needs of the header:
    the flag is not empty, and the two flags that other options set by
    themselves share no bit with it. *)
Definition untracked_flag_apart : Prop :=
  GIT_STATUS_OPT_INCLUDE_UNTRACKED <> 0 /\
  Z.land GIT_STATUS_OPT_INCLUDE_IGNORED GIT_STATUS_OPT_INCLUDE_UNTRACKED = 0 /\
  Z.land GIT_STATUS_OPT_EXCLUDE_SUBMODULES GIT_STATUS_OPT_INCLUDE_UNTRACKED = 0.


(** The options parse_opts knows by name. *)
Definition option_names : list string :=
  ["-s"; "--short"; "--long"; "--porcelain"; "-b"; "--branch"; "-z";
   "--ignored"; "-uno"; "--untracked-files=no"; "-unormal";
   "--untracked-files=normal"; "-uall"; "--untracked-files=all";
   "--ignore-submodules=all"].

(** An argument parse_opts has a case for: a path, an option it knows by
    name, or --git-dir=<path>. *)
Definition supported (a : string) : Prop :=
  non_option a = true \/ In a option_names \/ names_git_dir a.


(** Whether the command line asks for the branch banner by name. *)
Definition branch_requested (args : list string) : bool :=
  List.existsb (fun a => String.eqb a "-b" || String.eqb a "--branch") args.

(** What a run writes on a clean repository whose HEAD is the branch
    main: the banner of the long format, that of the other formats when
    it is asked for, and nothing else. *)
Definition clean_main_output (args : list string) : string :=
  if chosen_format args =? FORMAT_LONG then "# On branch main" ++ nl
  else if branch_requested args then "## main" ++ nl
  else "".


(** The fault of a command line that is refused: a fatal exit on one of
    the two diagnostics of misuse. *)
Definition refusal (f : fault) : Prop :=
  exists message extra, f = Fatal message extra /\ cli_misuse message.


(** The first three passes of print_long: they yield [changes_in_index]
    and [changed_in_workdir]. *)
Definition long_first_three (status : git_status_list) : io (bool * bool) :=
  locals <- long_index_pass status ;;
  let '(changes_in_index, rm_in_workdir) := locals in
  changed_in_workdir <- long_workdir_pass rm_in_workdir status ;;
  for_each long_untracked_entry status false ;;
  ret (changes_in_index, changed_in_workdir).

Definition ignored_header : string :=
  "# Ignored files:" ++ nl
  ++ "#   (use " ++ dq ++ "git add -f <file>..." ++ dq
  ++ " to include in what will be committed)" ++ nl
  ++ "#" ++ nl.

End Vocabulary.

(** ** General facts *)

Lemma bind_ret_l {A B : Type} (a : A) (k : A -> io B) : bind (ret a) k = k a.
Proof. unfold bind, ret. destruct (k a); reflexivity. Qed.

Lemma bind_pure {A B : Type} (a : A) (k : A -> io B) :
  bind (EmptyString, Ret a) k = k a.
Proof. exact (bind_ret_l a k). Qed.

Lemma bind_run {A B : Type} (out : string) (a : A) (k : A -> io B) :
  bind (out, Ret a) k = (out ++ stdout (k a), outcome (k a)).
Proof. cbn. destruct (k a); reflexivity. Qed.

Lemma bind_crash {A B : Type} (f : fault) (k : A -> io B) :
  bind (crash f) k = crash f.
Proof. reflexivity. Qed.

Lemma outcome_bind_ret {A B : Type} (m : io A) (k : A -> io B) (b : B) :
  outcome (bind m k) = Ret b ->
  exists a, outcome m = Ret a /\ outcome (k a) = Ret b.
Proof.
  destruct m as [out [a | f]]; cbn.
  - destruct (k a) as [out' r] eqn:E. cbn. intros ->. exists a.
    rewrite E. split; reflexivity.
  - discriminate.
Qed.

Lemma outcome_bind_fault {A B : Type} (m : io A) (k : A -> io B) (f : fault) :
  outcome (bind m k) = Fault f ->
  outcome m = Fault f \/ exists a, outcome m = Ret a /\ outcome (k a) = Fault f.
Proof.
  destruct m as [out [a | g]]; cbn.
  - destruct (k a) as [out' r] eqn:E. cbn. intros ->. right. exists a.
    rewrite E. split; reflexivity.
  - intros [= ->]. left. reflexivity.
Qed.

Lemma bind_ext {A B : Type} (m : io A) (k k' : A -> io B) :
  (forall a, k a = k' a) -> bind m k = bind m k'.
Proof.
  intros H. destruct m as [out [a | f]]; cbn; [rewrite H |]; reflexivity.
Qed.

Lemma for_each_skip {E S : Type} (body : E -> S -> io S) (e : E)
  (l1 l2 : list E) :
  (forall s, body e s = ret s) ->
  forall s, for_each body (l1 ++ e :: l2)%list s = for_each body (l1 ++ l2)%list s.
Proof.
  intros Hskip. induction l1 as [| x l1 IH]; intros s; cbn.
  - rewrite Hskip. apply bind_ret_l.
  - destruct (body x s) as [out [s' | f]]; cbn; [rewrite IH |]; reflexivity.
Qed.

(** A loop ends on a fault only if some turn does. *)
Lemma for_each_fault {E S : Type} (body : E -> S -> io S) (f : fault)
  (l : list E) :
  forall s, outcome (for_each body l s) = Fault f ->
  exists e s', In e l /\ outcome (body e s') = Fault f.
Proof.
  induction l as [| x l IH]; intros s; cbn.
  - discriminate.
  - intros H. apply outcome_bind_fault in H. destruct H as [H | [s' [_ H]]].
    + exists x, s. split; [left; reflexivity | exact H].
    + destruct (IH _ H) as [e [s'' [Hin Hf]]].
      exists e, s''. split; [right; exact Hin | exact Hf].
Qed.

(** A loop that runs to its end ran every turn to its end. *)
Lemma for_each_ret {E S : Type} (body : E -> S -> io S) (l : list E) :
  forall s s', outcome (for_each body l s) = Ret s' ->
  forall e, In e l -> exists s1 s2, outcome (body e s1) = Ret s2.
Proof.
  induction l as [| x l IH]; intros s s' H e Hin; cbn in *.
  - contradiction.
  - apply outcome_bind_ret in H. destruct H as [s1 [Hx Hl]].
    destruct Hin as [<- | Hin].
    + exists s, s1. exact Hx.
    + exact (IH _ _ Hl _ Hin).
Qed.

Lemma append_assoc (a b c : string) : (a ++ b) ++ c = a ++ (b ++ c).
Proof. induction a as [| x a IH]; cbn; [| rewrite IH]; reflexivity. Qed.

Lemma append_nil_r (a : string) : a ++ "" = a.
Proof. induction a as [| x a IH]; cbn; [| rewrite IH]; reflexivity. Qed.

(** *** Bit tests *)

Lemma test_bit (x k : Z) : 0 <= k -> test x (Z.shiftl 1 k) = Z.testbit x k.
Proof.
  intros Hk. unfold test. rewrite Z.shiftl_1_l.
  destruct (Z.testbit x k) eqn:Hb.
  - assert (Z.land x (2 ^ k) = 2 ^ k) as ->.
    { apply Z.bits_inj'. intros n Hn.
      rewrite Z.land_spec, Z.pow2_bits_eqb by exact Hk.
      destruct (Z.eqb_spec k n) as [<- | _].
      - rewrite Hb. reflexivity.
      - apply andb_false_r. }
    assert (0 < 2 ^ k) by (apply Z.pow_pos_nonneg; lia).
    destruct (Z.eqb_spec (2 ^ k) 0); [lia | reflexivity].
  - assert (Z.land x (2 ^ k) = 0) as ->.
    { apply Z.bits_inj'. intros n Hn.
      rewrite Z.land_spec, Z.pow2_bits_eqb, Z.bits_0 by exact Hk.
      destruct (Z.eqb_spec k n) as [<- | _].
      - rewrite Hb. reflexivity.
      - apply andb_false_r. }
    reflexivity.
Qed.

Lemma test_lor (a b m : Z) : test (Z.lor a b) m = test a m || test b m.
Proof.
  unfold test. rewrite Z.land_lor_distr_l.
  destruct (Z.eqb_spec (Z.land a m) 0) as [Ha | Ha];
    destruct (Z.eqb_spec (Z.land b m) 0) as [Hb | Hb];
    destruct (Z.eqb_spec (Z.lor (Z.land a m) (Z.land b m)) 0) as [H | H];
    try reflexivity; exfalso.
  - apply H. apply Z.lor_eq_0_iff. split; assumption.
  - apply Z.lor_eq_0_iff in H. tauto.
  - apply Z.lor_eq_0_iff in H. tauto.
  - apply Z.lor_eq_0_iff in H. tauto.
Qed.

Section Facts.

Context {git2 : Git2Constants}.

Lemma flag_mask_pos (f : status_flag) : 0 < flag_mask f.
Proof.
  unfold flag_mask. rewrite Z.shiftl_1_l.
  apply Z.pow_pos_nonneg; [lia | apply status_bit_range].
Qed.

Lemma has_testbit (st : Z) (f : status_flag) :
  has st f = Z.testbit st (status_bit f).
Proof. unfold has, flag_mask. apply test_bit, status_bit_range. Qed.

Lemma has_current (f : status_flag) : has GIT_STATUS_CURRENT f = false.
Proof. rewrite has_testbit. apply Z.bits_0. Qed.

(** A single flag's mask has that flag set and no other. *)
Lemma has_flag_mask (f g : status_flag) :
  has (flag_mask f) g = true <-> f = g.
Proof.
  rewrite has_testbit. unfold flag_mask. rewrite Z.shiftl_1_l.
  rewrite Z.pow2_bits_eqb by apply status_bit_range.
  rewrite Z.eqb_eq. split; [apply status_bit_inj | intros ->; reflexivity].
Qed.

Lemma has_other_flag (f g : status_flag) : f <> g -> has (flag_mask f) g = false.
Proof.
  intros Hne. destruct (has (flag_mask f) g) eqn:H; [| reflexivity].
  apply has_flag_mask in H. contradiction.
Qed.

Lemma has_same_flag (f : status_flag) : has (flag_mask f) f = true.
Proof. apply has_flag_mask. reflexivity. Qed.

Lemma has_lor (a b : Z) (f : status_flag) :
  has (Z.lor a b) f = has a f || has b f.
Proof. apply test_lor. Qed.

(** Rewrites the bit tests of the source into [has]. *)
Ltac fold_has st :=
  change (test st GIT_STATUS_INDEX_NEW) with (has st IndexNew) in *;
  change (test st GIT_STATUS_INDEX_MODIFIED) with (has st IndexModified) in *;
  change (test st GIT_STATUS_INDEX_DELETED) with (has st IndexDeleted) in *;
  change (test st GIT_STATUS_INDEX_RENAMED) with (has st IndexRenamed) in *;
  change (test st GIT_STATUS_INDEX_TYPECHANGE) with (has st IndexTypechange) in *;
  change (test st GIT_STATUS_WT_NEW) with (has st WtNew) in *;
  change (test st GIT_STATUS_WT_MODIFIED) with (has st WtModified) in *;
  change (test st GIT_STATUS_WT_DELETED) with (has st WtDeleted) in *;
  change (test st GIT_STATUS_WT_TYPECHANGE) with (has st WtTypechange) in *;
  change (test st GIT_STATUS_WT_RENAMED) with (has st WtRenamed) in *;
  change (test st GIT_STATUS_IGNORED) with (has st Ignored) in *.

(** *** Entries with status Current *)

Lemma current_not_flag (f : status_flag) :
  (GIT_STATUS_CURRENT =? flag_mask f) = false.
Proof.
  apply Z.eqb_neq. pose proof (flag_mask_pos f). unfold GIT_STATUS_CURRENT. lia.
Qed.

Section Current.

Variable e : git_status_entry.
Hypothesis e_current : status e = GIT_STATUS_CURRENT.

Lemma long_index_entry_current (locals : bool * bool) :
  long_index_entry e locals = ret locals.
Proof.
  destruct locals as [header rm]. unfold long_index_entry.
  rewrite e_current. reflexivity.
Qed.

Lemma long_workdir_entry_current (rm header : bool) :
  long_workdir_entry rm e header = ret header.
Proof. unfold long_workdir_entry. rewrite e_current. reflexivity. Qed.

Lemma long_untracked_entry_current (header : bool) :
  long_untracked_entry e header = ret header.
Proof.
  unfold long_untracked_entry. rewrite e_current.
  change GIT_STATUS_WT_NEW with (flag_mask WtNew).
  rewrite current_not_flag. reflexivity.
Qed.

Lemma long_ignored_entry_current (header : bool) :
  long_ignored_entry e header = ret header.
Proof.
  unfold long_ignored_entry. rewrite e_current.
  change GIT_STATUS_IGNORED with (flag_mask Ignored).
  rewrite current_not_flag. reflexivity.
Qed.

Lemma short_entry_current (repo : git_repository) (u : unit) :
  short_entry repo e u = ret u.
Proof. destruct u. unfold short_entry. rewrite e_current. reflexivity. Qed.

Lemma short_untracked_entry_current (u : unit) :
  short_untracked_entry e u = ret u.
Proof.
  destruct u. unfold short_untracked_entry. rewrite e_current.
  change GIT_STATUS_WT_NEW with (flag_mask WtNew).
  rewrite current_not_flag. reflexivity.
Qed.

End Current.

(** An entry on which no loop of a renderer does anything can be dropped
    from the list. *)
Lemma print_long_skip (repo : git_repository) (l1 l2 : git_status_list)
  (e : git_status_entry) :
  (forall locals, long_index_entry e locals = ret locals) ->
  (forall rm header, long_workdir_entry rm e header = ret header) ->
  (forall header, long_untracked_entry e header = ret header) ->
  (forall header, long_ignored_entry e header = ret header) ->
  print_long repo (l1 ++ e :: l2)%list = print_long repo (l1 ++ l2)%list.
Proof.
  intros H1 H2 H3 H4. unfold print_long, long_index_pass, long_workdir_pass.
  rewrite (for_each_skip long_index_entry e) by exact H1.
  apply bind_ext. intros [changes_in_index rm].
  rewrite (for_each_skip (long_workdir_entry rm) e) by apply H2.
  apply bind_ext. intros changed_in_workdir.
  rewrite (for_each_skip long_untracked_entry e) by exact H3.
  rewrite (for_each_skip long_ignored_entry e) by exact H4.
  reflexivity.
Qed.

Lemma print_short_skip (repo : git_repository) (l1 l2 : git_status_list)
  (e : git_status_entry) :
  (forall u, short_entry repo e u = ret u) ->
  (forall u, short_untracked_entry e u = ret u) ->
  print_short repo (l1 ++ e :: l2)%list = print_short repo (l1 ++ l2)%list.
Proof.
  intros H1 H2. unfold print_short.
  rewrite (for_each_skip (short_entry repo) e) by exact H1.
  rewrite (for_each_skip short_untracked_entry e) by exact H2.
  reflexivity.
Qed.

(** C6. An entry whose status is Current changes nothing in what either
    renderer does: the long renderer and the short renderer (which also
    serves the porcelain format) behave on a list that holds such an entry,
    at any place, exactly as on the list without it: same output, headers
    and trailer included, and same end. *)
Theorem current_entry_invisible (repo : git_repository)
  (l1 l2 : git_status_list) (e : git_status_entry) :
  status e = GIT_STATUS_CURRENT ->
  print_long repo (l1 ++ e :: l2)%list = print_long repo (l1 ++ l2)%list /\
  print_short repo (l1 ++ e :: l2)%list = print_short repo (l1 ++ l2)%list.
Proof.
  intros He. split.
  - apply print_long_skip; intros.
    + apply long_index_entry_current, He.
    + apply long_workdir_entry_current, He.
    + apply long_untracked_entry_current, He.
    + apply long_ignored_entry_current, He.
  - apply print_short_skip; intros.
    + apply short_entry_current, He.
    + apply short_untracked_entry_current, He.
Qed.

(** *** The index-side glyph *)

Lemma long_istatus_winner (st : Z) :
  long_istatus st =
  match index_winner st with
  | Some f => long_index_glyph f
  | None => None
  end.
Proof.
  unfold long_istatus, index_winner, index_priority. fold_has st. cbn.
  destruct (has st IndexTypechange), (has st IndexRenamed),
    (has st IndexDeleted), (has st IndexModified), (has st IndexNew);
    reflexivity.
Qed.

Lemma short_glyphs_winner (st : Z) (f : status_flag) :
  index_winner st = Some f ->
  fst (short_glyphs st) =
  if has st Ignored then "!"%char else short_index_glyph f.
Proof.
  unfold short_glyphs, index_winner, index_priority. fold_has st. cbn.
  destruct (has st IndexTypechange), (has st IndexRenamed),
    (has st IndexDeleted), (has st IndexModified), (has st IndexNew);
    intros [= <-]; destruct (has st WtNew), (has st Ignored); reflexivity.
Qed.

Lemma index_winner_some (st : Z) :
  (1 <= index_flags_set st)%nat ->
  exists f, index_winner st = Some f /\ In f index_flags.
Proof.
  unfold index_flags_set, index_winner, index_priority, index_flags. cbn.
  destruct (has st IndexTypechange), (has st IndexRenamed),
    (has st IndexDeleted), (has st IndexModified), (has st IndexNew);
    cbn; intros H; try lia; eexists; (split; [reflexivity |]); cbn; tauto.
Qed.

(** C3, amended. When two or more index-side flags are set, the long
    renderer's glyph is that of the flag that comes first in the order
    Typechange > Renamed > Deleted > Modified > New, and so is the first
    character of the short renderer's code unless the Ignored flag is set
    too, which makes that character an exclamation mark. *)
Theorem index_glyph_by_priority (st : Z) :
  (2 <= index_flags_set st)%nat ->
  exists f,
    index_winner st = Some f /\ In f index_flags /\
    long_istatus st = long_index_glyph f /\
    (has st Ignored = false -> fst (short_glyphs st) = short_index_glyph f) /\
    (has st Ignored = true -> fst (short_glyphs st) = "!"%char).
Proof.
  intros H. destruct (index_winner_some st) as [f [Hf Hin]]; [lia |].
  exists f. split; [exact Hf |]. split; [exact Hin |].
  rewrite long_istatus_winner, (short_glyphs_winner st f Hf), Hf.
  split; [reflexivity |]. split; intros ->; reflexivity.
Qed.

(** IndexModified | IndexRenamed: two index-side flags, Renamed first. *)
Lemma modified_renamed_winner :
  let st := Z.lor GIT_STATUS_INDEX_MODIFIED GIT_STATUS_INDEX_RENAMED in
  index_flags_set st = 2%nat /\ index_winner st = Some IndexRenamed /\
  has st Ignored = false.
Proof.
  cbv zeta.
  change GIT_STATUS_INDEX_MODIFIED with (flag_mask IndexModified).
  change GIT_STATUS_INDEX_RENAMED with (flag_mask IndexRenamed).
  unfold index_flags_set, index_winner, index_flags, index_priority. cbn.
  rewrite !has_lor.
  rewrite !has_same_flag, !has_other_flag by discriminate.
  cbn. repeat split; reflexivity.
Qed.

(** *** Lines of the short format *)

(** C4. An entry the main pass of the short renderer prints gets one line:
    its two glyphs, then three paths (a, b, c) when both glyphs are R, two
    when one is (a and b for the first glyph, a and c for the second), one
    (a) otherwise, and then the submodule note, in every case. *)
Theorem short_entry_line (repo : git_repository) (s : git_status_entry)
  (x y : ascii) (a b c : option string) (out : string) :
  short_glyphs (status s) = (x, y) ->
  short_paths s = (a, b, c) ->
  short_entry repo s tt = (out, Ret tt) ->
  out <> "" ->
  exists paths,
    List.map Some paths = short_line_paths x y a b c /\
    out = short_line x y paths (short_extra repo s).
Proof.
  intros Hg Hp. unfold short_entry, short_line_paths. rewrite Hg, Hp.
  destruct (status s =? GIT_STATUS_CURRENT);
    [intros [= <-] Hout; contradiction |].
  destruct (Ascii.eqb x "?" && Ascii.eqb y "?");
    [intros [= <-] Hout; contradiction |].
  destruct (Ascii.eqb x "R"), (Ascii.eqb y "R"); unfold printf;
    destruct a as [pa |], b as [pb |], c as [pc |];
    cbn; intros [= <-] _.
  all: try (exists [pa; pb; pc]; split; reflexivity).
  all: try (exists [pa; pb]; split; reflexivity).
  all: try (exists [pa; pc]; split; reflexivity).
  all: exists [pa]; split; reflexivity.
Qed.

(** *** An entry with the Conflicted flag alone *)

Lemma flag_mask_inj (f g : status_flag) : flag_mask f = flag_mask g -> f = g.
Proof.
  intros H. symmetry. apply has_flag_mask. rewrite <- H. apply has_same_flag.
Qed.

Lemma flag_mask_neqb (f g : status_flag) :
  f <> g -> (flag_mask f =? flag_mask g) = false.
Proof.
  intros Hne. apply Z.eqb_neq. intros H. apply Hne, flag_mask_inj, H.
Qed.

Lemma flag_mask_not_current (f : status_flag) :
  (flag_mask f =? GIT_STATUS_CURRENT) = false.
Proof.
  apply Z.eqb_neq. pose proof (flag_mask_pos f). unfold GIT_STATUS_CURRENT. lia.
Qed.

Lemma conflicted_glyphs :
  long_istatus GIT_STATUS_CONFLICTED = None /\
  long_wstatus GIT_STATUS_CONFLICTED = None /\
  short_glyphs GIT_STATUS_CONFLICTED = (" "%char, " "%char).
Proof.
  unfold long_istatus, long_wstatus, short_glyphs.
  fold_has GIT_STATUS_CONFLICTED.
  change GIT_STATUS_CONFLICTED with (flag_mask Conflicted).
  rewrite !has_other_flag by discriminate. repeat split; reflexivity.
Qed.

(** *** The hint of the section of unstaged changes *)

Lemma outcome_eq {A : Type} (m : io A) (out : string) (r : res A) :
  m = (out, r) -> outcome m = r.
Proof. intros ->. reflexivity. Qed.

Lemma long_index_entry_rm (s : git_status_entry) (header rm header' rm' : bool) :
  outcome (long_index_entry s (header, rm)) = Ret (header', rm') ->
  rm' = rm || wt_deleted s.
Proof.
  unfold long_index_entry, wt_deleted.
  destruct (Z.eqb_spec (status s) GIT_STATUS_CURRENT) as [E | _].
  - rewrite E, has_current, orb_false_r. intros [= _ <-]. reflexivity.
  - fold_has (status s).
    assert ((if has (status s) WtDeleted then true else rm)
            = rm || has (status s) WtDeleted) as ->.
    { destruct (has (status s) WtDeleted), rm; reflexivity. }
    destruct (long_istatus (status s)) as [glyph |].
    + intros H.
      apply outcome_bind_ret in H. destruct H as [h [_ H]].
      apply outcome_bind_ret in H. destruct H as [d [_ H]].
      apply outcome_bind_ret in H. destruct H as [u [_ H]].
      injection H as _ <-. reflexivity.
    + intros [= _ <-]. reflexivity.
Qed.

Lemma long_index_loop_rm (l : git_status_list) :
  forall header rm header' rm',
    outcome (for_each long_index_entry l (header, rm)) = Ret (header', rm') ->
    rm' = rm || List.existsb wt_deleted l.
Proof.
  induction l as [| s l IH]; intros header rm header' rm'; cbn.
  - intros [= _ <-]. rewrite orb_false_r. reflexivity.
  - intros H. apply outcome_bind_ret in H. destruct H as [[h1 rm1] [Hs Hl]].
    apply long_index_entry_rm in Hs. apply IH in Hl. subst.
    symmetry. apply orb_assoc.
Qed.

Lemma long_index_pass_rm (l : git_status_list) (c rm : bool) :
  outcome (long_index_pass l) = Ret (c, rm) -> rm = List.existsb wt_deleted l.
Proof.
  unfold long_index_pass. intros H.
  apply outcome_bind_ret in H. destruct H as [[header rm1] [Hl H]].
  apply long_index_loop_rm in Hl. cbn in Hl. subst rm1.
  destruct header; cbn in H; injection H as _ <-; reflexivity.
Qed.

Lemma unstaged_started_app (rm : bool) (out more : string) :
  unstaged_started rm out -> unstaged_started rm (out ++ more).
Proof.
  intros [tail ->]. exists (tail ++ more).
  rewrite !append_assoc. reflexivity.
Qed.

Lemma long_workdir_entry_first (rm : bool) (s : git_status_entry) :
  long_workdir_entry rm s false = ret false \/
  unstaged_started rm (stdout (long_workdir_entry rm s false)).
Proof.
  unfold long_workdir_entry.
  destruct (status s =? GIT_STATUS_CURRENT); [left; reflexivity |].
  destruct (index_to_workdir s) as [delta |]; [| left; reflexivity].
  destruct (long_wstatus (status s)) as [glyph |]; [| left; reflexivity].
  right. destruct (print_change glyph delta) as [line r] eqn:E.
  destruct rm; cbn; rewrite E; destruct r; cbn; eexists; cbn; reflexivity.
Qed.

Lemma long_workdir_loop_first (rm : bool) (l : git_status_list) :
  for_each (long_workdir_entry rm) l false = ret false \/
  unstaged_started rm (stdout (for_each (long_workdir_entry rm) l false)).
Proof.
  induction l as [| s l IH]; cbn.
  - left. reflexivity.
  - destruct (long_workdir_entry_first rm s) as [-> | H].
    + rewrite bind_ret_l. exact IH.
    + right. destruct (long_workdir_entry rm s false) as [out [h | f]]; cbn in *.
      * destruct (for_each (long_workdir_entry rm) l h) as [out' r]. cbn.
        apply unstaged_started_app, H.
      * exact H.
Qed.

Lemma long_workdir_pass_first (rm : bool) (l : git_status_list) :
  stdout (long_workdir_pass rm l) = "" \/
  unstaged_started rm (stdout (long_workdir_pass rm l)).
Proof.
  unfold long_workdir_pass.
  destruct (long_workdir_loop_first rm l) as [-> | H].
  - left. reflexivity.
  - right. destruct (for_each (long_workdir_entry rm) l false)
      as [out [h | f]]; cbn in *.
    + destruct h; cbn; apply unstaged_started_app, H.
    + exact H.
Qed.

(** C5, amended. In the long format the header of the section of unstaged
    changes, when the section is written, has for second line
    [#   (use "git add<rm> <file>..." to update what will be committed)],
    with no parenthesis after the quoted command, where <rm> is [/rm] if
    some entry of the list has the WtDeleted flag (the first pass, once
    through the list, has noted it) and nothing otherwise. *)
Theorem unstaged_header_hint (repo : git_repository) (l : git_status_list)
  (out1 : string) (changes_in_index rm : bool) :
  long_index_pass l = (out1, Ret (changes_in_index, rm)) ->
  rm = List.existsb wt_deleted l /\
  (exists rest r,
     print_long repo l = (out1 ++ stdout (long_workdir_pass rm l) ++ rest, r)) /\
  (stdout (long_workdir_pass rm l) = "" \/
   exists tail,
     stdout (long_workdir_pass rm l)
     = unstaged_title ++ unstaged_hint rm ++ tail).
Proof.
  intros H1. split; [| split].
  - apply (long_index_pass_rm l changes_in_index), (outcome_eq _ out1), H1.
  - unfold print_long. rewrite H1, bind_run. cbv beta iota.
    destruct (long_workdir_pass rm l) as [out2 [changed | f]].
    + rewrite bind_run. cbn [stdout outcome fst snd].
      eexists _, _. reflexivity.
    + exists "", (Fault f). cbn. rewrite append_nil_r. reflexivity.
  - apply long_workdir_pass_first.
Qed.

(** *** The branch banner *)

Lemma uchar_inj (c d : ascii) : uchar c = uchar d -> c = d.
Proof.
  unfold uchar. intros H. apply N2Z.inj in H.
  rewrite <- (ascii_N_embedding c), <- (ascii_N_embedding d), H. reflexivity.
Qed.

Lemma uchar_zero (c : ascii) : uchar c = 0 -> c = zero.
Proof. intros H. apply uchar_inj. rewrite H. reflexivity. Qed.

(** Comparing with a prefix over its length: equal exactly when the string
    starts with it. *)
Lemma strncmp_prefix (p : string) :
  no_nul p = true ->
  forall s, strncmp s p (strlen p) = 0 <-> exists rest, s = p ++ rest.
Proof.
  induction p as [| d p IH]; cbn; intros Hp s.
  - split; [intros _; exists s; reflexivity | reflexivity].
  - apply andb_true_iff in Hp. destruct Hp as [Hd Hp].
    apply negb_true_iff in Hd.
    destruct s as [| c s].
    + split.
      * intros H. assert (d = zero) as -> by (apply uchar_zero; lia).
        discriminate Hd.
      * intros [rest H]. discriminate H.
    + destruct (Ascii.eqb_spec c d) as [-> | Hne].
      * rewrite Hd, (IH Hp s). split.
        -- intros [rest ->]. exists rest. reflexivity.
        -- intros [rest [= ->]]. exists rest. reflexivity.
      * split.
        -- intros H. exfalso. apply Hne, uchar_inj. lia.
        -- intros [rest [= -> _]]. contradiction.
Qed.

Lemma str_advance_app (p rest : string) :
  str_advance (p ++ rest) (strlen p) = rest.
Proof. induction p as [| d p IH]; cbn; [reflexivity | exact IH]. Qed.

(** C7. The branch banner follows the outcome of resolving HEAD. On Unborn
    or NotFound there is no name and the banner says so, in the wording of
    the format. On success the name written is the reference name without
    its leading refs/heads/ when it has one, and the reference name as it
    is otherwise. Any other failure is fatal, and nothing is written. *)
Theorem show_branch_outcomes (repo : git_repository) (format : Z)
  (error : Z) (head : option git_reference) :
  git_repository_head repo = (error, head) ->
  (error = GIT_EUNBORNBRANCH \/ error = GIT_ENOTFOUND ->
   show_branch repo format
   = ((if format =? FORMAT_LONG
       then "# On branch Not currently on any branch." ++ nl
       else "## HEAD (no branch)" ++ nl), Ret tt)) /\
  (forall ref, error = 0 -> head = Some ref ->
   exists name,
     show_branch repo format
     = ((if format =? FORMAT_LONG then "# On branch " else "## ")
        ++ name ++ nl, Ret tt) /\
     (git_reference_name ref = "refs/heads/" ++ name \/
      (forall rest, git_reference_name ref <> "refs/heads/" ++ rest) /\
      name = git_reference_name ref)) /\
  (error <> 0 -> error <> GIT_EUNBORNBRANCH -> error <> GIT_ENOTFOUND ->
   show_branch repo format
   = ("", Fault (Fatal "failed to get current branch" None))).
Proof.
  intros Hhead. unfold show_branch. rewrite Hhead.
  split; [| split].
  - intros H.
    assert ((error =? GIT_EUNBORNBRANCH) || (error =? GIT_ENOTFOUND) = true) as ->.
    { apply orb_true_iff. rewrite !Z.eqb_eq. exact H. }
    rewrite bind_ret_l. destruct (format =? FORMAT_LONG); reflexivity.
  - intros ref -> ->.
    assert ((0 =? GIT_EUNBORNBRANCH) || (0 =? GIT_ENOTFOUND) = false) as ->.
    { apply orb_false_iff. rewrite !Z.eqb_neq.
      pose proof GIT_EUNBORNBRANCH_failure. pose proof GIT_ENOTFOUND_failure.
      split; congruence. }
    cbn [Z.eqb deref]. rewrite bind_ret_l.
    pose proof (strncmp_prefix "refs/heads/" eq_refl (git_reference_name ref))
      as Hprefix.
    destruct (Z.eqb_spec
                (strncmp (git_reference_name ref) "refs/heads/"
                   (strlen "refs/heads/")) 0) as [E | E].
    + apply Hprefix in E. destruct E as [rest E]. exists rest.
      rewrite bind_ret_l, E, str_advance_app.
      split; [| left; reflexivity].
      destruct (format =? FORMAT_LONG); reflexivity.
    + exists (git_reference_name ref). rewrite bind_ret_l.
      split.
      * destruct (format =? FORMAT_LONG); reflexivity.
      * right. split; [| reflexivity].
        intros rest Hrest. apply E, Hprefix. exists rest. exact Hrest.
  - intros H0 H1 H2.
    apply Z.eqb_neq in H0, H1, H2. unfold check_lg2.
    rewrite H0, H1, H2. reflexivity.
Qed.

(** *** The bound on the pathspec *)

Lemma for_each_app {E S : Type} (body : E -> S -> io S) (l1 l2 : list E) :
  forall s,
    for_each body (l1 ++ l2)%list s
    = bind (for_each body l1 s) (for_each body l2).
Proof.
  induction l1 as [| x l1 IH]; intros s; cbn [app for_each].
  - rewrite bind_ret_l. reflexivity.
  - destruct (body x s) as [out [s' | f]]; cbn; [| reflexivity].
    rewrite IH.
    destruct (for_each body l1 s') as [out1 [s1 | f]]; cbn; [| reflexivity].
    destruct (for_each body l2 s1) as [out2 r]. rewrite append_assoc.
    reflexivity.
Qed.

(** What one argument does: a path is stored while there is room and is
    fatal otherwise; an option leaves the paths alone, or is refused. *)
Lemma parse_arg_path (a : string) (o : opts) :
  non_option a = true ->
  parse_arg a o =
  if npaths o <? MAX_PATHSPEC
  then ret (push_pathspec o a)
  else crash (Fatal "Example only supports a limited pathspec" None).
Proof. unfold parse_arg, non_option. intros ->. reflexivity. Qed.

Lemma parse_arg_option (a : string) (o : opts) :
  non_option a = false ->
  (exists o', parse_arg a o = ret o' /\
              pathspec o' = pathspec o /\ npaths o' = npaths o) \/
  parse_arg a o = crash (Fatal "Unsupported option" (Some a)).
Proof.
  unfold parse_arg, non_option. intros ->. cbn [negb].
  repeat match goal with
         | |- context [if ?c then _ else _] => destruct c
         end;
    try (left; eexists; split; [reflexivity | split; reflexivity]).
  right. reflexivity.
Qed.

(** The loop, when it ends: the paths of the command line, in order. *)
Lemma parse_loop_ret (args : list string) :
  forall o out o',
    paths_counted o ->
    for_each parse_arg args o = (out, Ret o') ->
    out = "" /\ paths_counted o' /\
    pathspec o' = (pathspec o ++ List.filter non_option args)%list.
Proof.
  induction args as [| a args IH]; intros o out o' Ho; cbn.
  - intros [= <- <-]. rewrite app_nil_r. auto.
  - destruct (non_option a) eqn:Ha.
    + rewrite (parse_arg_path a o Ha).
      destruct (Z.ltb_spec (npaths o) MAX_PATHSPEC) as [Hlt | _];
        [| discriminate].
      rewrite bind_ret_l. intros H.
      apply IH in H.
      * cbn [push_pathspec pathspec] in H. rewrite <- app_assoc in H. exact H.
      * destruct Ho as [Hn _]. unfold paths_counted. cbn.
        rewrite length_app, Nat2Z.inj_add. cbn. lia.
    + destruct (parse_arg_option a o Ha) as [[o1 [-> [Hp Hn]]] | ->];
        [| discriminate].
      rewrite bind_ret_l. intros H. apply IH in H.
      * rewrite Hp in H. exact H.
      * unfold paths_counted in *. rewrite Hp, Hn. exact Ho.
Qed.

(** The loop, when the paths do not fit: a fatal exit. *)
Lemma parse_loop_overflow (args : list string) :
  forall o,
    paths_counted o ->
    MAX_PATHSPEC < npaths o + Z.of_nat (List.length (List.filter non_option args)) ->
    exists message extra,
      for_each parse_arg args o = ("", Fault (Fatal message extra)) /\
      cli_misuse message.
Proof.
  induction args as [| a args IH]; intros o Ho; cbn.
  - destruct Ho. lia.
  - destruct (non_option a) eqn:Ha.
    + rewrite (parse_arg_path a o Ha). cbn [List.length]. intros Hgt.
      destruct (Z.ltb_spec (npaths o) MAX_PATHSPEC) as [Hlt | _].
      * rewrite bind_ret_l. apply IH.
        -- destruct Ho as [Hn _]. unfold paths_counted. cbn.
           rewrite length_app, Nat2Z.inj_add. cbn. lia.
        -- cbn. lia.
      * eexists _, _. split; [reflexivity | left; reflexivity].
    + intros Hgt.
      destruct (parse_arg_option a o Ha) as [[o1 [-> [Hp Hn]]] | ->].
      * rewrite bind_ret_l. apply IH.
        -- unfold paths_counted in *. rewrite Hp, Hn. exact Ho.
        -- rewrite Hn. exact Hgt.
      * eexists _, _. split; [reflexivity | right; reflexivity].
Qed.

Lemma main_opts_counted : paths_counted main_opts.
Proof. unfold paths_counted, MAX_PATHSPEC. cbn. lia. Qed.

Lemma parse_opts_fault (o : opts) (argv : list string) (f : fault) :
  for_each parse_arg (List.tl argv) o = ("", Fault f) ->
  parse_opts o argv = ("", Fault f).
Proof. unfold parse_opts. intros ->. reflexivity. Qed.

(** *** Reads through the delta pointers *)

Lemma printf_no_deref (fmt : string) (args : list printf_arg) :
  outcome (printf fmt args) <> Fault NullDeref.
Proof. unfold printf. destruct (formatted fmt args); discriminate. Qed.

Lemma print_change_no_deref (glyph : string) (delta : git_diff_delta) :
  outcome (print_change glyph delta) <> Fault NullDeref.
Proof.
  unfold print_change.
  match goal with
  | |- context [if ?c then _ else _] => destruct c
  end; apply printf_no_deref.
Qed.

Lemma long_istatus_index_side (st : Z) :
  index_side st = true <-> long_istatus st <> None.
Proof.
  unfold index_side, index_flags, long_istatus. fold_has st. cbn.
  destruct (has st IndexNew), (has st IndexModified), (has st IndexDeleted),
    (has st IndexRenamed), (has st IndexTypechange); cbn;
    split; intros H; try reflexivity; try discriminate; congruence.
Qed.

Lemma index_side_not_current (st : Z) :
  index_side st = true -> (st =? GIT_STATUS_CURRENT) = false.
Proof.
  intros H. apply Z.eqb_neq. intros ->. unfold index_side, index_flags in H.
  cbn [existsb] in H. rewrite !has_current in H. discriminate H.
Qed.

(** The first loop reads the delta of the index side exactly on the
    entries with an index-side flag. *)
Lemma long_index_entry_deref (s : git_status_entry) (locals : bool * bool) :
  outcome (long_index_entry s locals) = Fault NullDeref ->
  index_side (status s) = true /\ head_to_index s = None.
Proof.
  destruct locals as [header rm]. unfold long_index_entry.
  destruct (status s =? GIT_STATUS_CURRENT); [discriminate |].
  destruct (long_istatus (status s)) as [glyph |] eqn:Hg; [| discriminate].
  intros H. split.
  - apply long_istatus_index_side. congruence.
  - destruct (head_to_index s) as [delta |]; [exfalso | reflexivity].
    apply outcome_bind_fault in H. destruct H as [H | [h [_ H]]].
    + destruct header; cbn in H; discriminate H.
    + cbn [deref] in H. rewrite bind_ret_l in H.
      apply outcome_bind_fault in H. destruct H as [H | [u [_ H]]].
      * exact (print_change_no_deref _ _ H).
      * discriminate H.
Qed.

Lemma long_index_entry_ret (s : git_status_entry) (locals locals' : bool * bool) :
  outcome (long_index_entry s locals) = Ret locals' ->
  index_side (status s) = true -> head_to_index s <> None.
Proof.
  destruct locals as [header rm]. unfold long_index_entry. intros H Hside.
  rewrite (index_side_not_current _ Hside) in H.
  apply long_istatus_index_side in Hside.
  destruct (long_istatus (status s)) as [glyph |]; [| contradiction].
  intros Hnone. rewrite Hnone in H.
  apply outcome_bind_ret in H. destruct H as [h [_ H]].
  discriminate H.
Qed.

(** The second loop tests the pointer before it reads. *)
Lemma long_workdir_entry_no_deref (rm : bool) (s : git_status_entry)
  (header : bool) :
  outcome (long_workdir_entry rm s header) <> Fault NullDeref.
Proof.
  unfold long_workdir_entry.
  destruct (status s =? GIT_STATUS_CURRENT); [discriminate |].
  destruct (index_to_workdir s) as [delta |]; [| discriminate].
  cbn [orb]. destruct (long_wstatus (status s)) as [glyph |]; [| discriminate].
  intros H.
  apply outcome_bind_fault in H. destruct H as [H | [h [_ H]]].
  - destruct header, rm; cbn in H; discriminate H.
  - cbn [deref] in H. rewrite bind_ret_l in H.
    apply outcome_bind_fault in H. destruct H as [H | [u [_ H]]].
    + exact (print_change_no_deref _ _ H).
    + discriminate H.
Qed.

(** A loop that reads the delta of the worktree side on the entries whose
    status is exactly [flag]: the third and fourth loops of the long
    renderer and the second of the short one. *)
Section ExactStatus.

Variables (L : Type) (body : git_status_entry -> L -> io L) (flag : Z).
Variables (first : L -> io L) (line : git_diff_delta -> io unit).
Hypothesis body_eq : forall s locals,
  body s locals =
  if status s =? flag then
    locals' <- first locals ;;
    delta <- deref (index_to_workdir s) ;;
    line delta ;;
    ret locals'
  else ret locals.
Hypothesis first_runs : forall locals, exists out locals',
  first locals = (out, Ret locals').
Hypothesis line_no_deref : forall delta,
  outcome (line delta) <> Fault NullDeref.

Lemma exact_entry_deref (s : git_status_entry) (locals : L) :
  outcome (body s locals) = Fault NullDeref ->
  status s = flag /\ index_to_workdir s = None.
Proof.
  rewrite body_eq. destruct (Z.eqb_spec (status s) flag) as [E | _];
    [| discriminate].
  intros H. split; [exact E |].
  destruct (index_to_workdir s) as [delta |]; [exfalso | reflexivity].
  destruct (first_runs locals) as [out [locals' Hf]]. rewrite Hf in H.
  rewrite bind_run in H. cbn [outcome snd deref] in H.
  rewrite bind_ret_l in H.
  apply outcome_bind_fault in H. destruct H as [H | [u [_ H]]].
  - exact (line_no_deref _ H).
  - discriminate H.
Qed.

Lemma exact_entry_absent (s : git_status_entry) (locals : L) :
  status s = flag -> index_to_workdir s = None ->
  outcome (body s locals) = Fault NullDeref.
Proof.
  intros E Hnone. rewrite body_eq, E, Z.eqb_refl, Hnone.
  destruct (first_runs locals) as [out [locals' ->]].
  reflexivity.
Qed.

Lemma exact_entry_ret (s : git_status_entry) (locals locals' : L) :
  outcome (body s locals) = Ret locals' ->
  status s = flag -> index_to_workdir s <> None.
Proof.
  rewrite body_eq. intros H E Hnone. rewrite E, Z.eqb_refl, Hnone in H.
  apply outcome_bind_ret in H. destruct H as [l1 [_ H]].
  discriminate H.
Qed.

End ExactStatus.

Lemma long_untracked_entry_shape :
  forall s header,
    long_untracked_entry s header =
    if status s =? GIT_STATUS_WT_NEW then
      header' <-
        (if negb header then
           printf ("# Untracked files:" ++ nl) [] ;;
           printf ("#   (use " ++ dq ++ "git add <file>..." ++ dq
                   ++ " to include in what will be committed)" ++ nl) [] ;;
           printf ("#" ++ nl) [] ;;
           ret true
         else ret header) ;;
      delta <- deref (index_to_workdir s) ;;
      printf ("#" ++ tab ++ "%s" ++ nl) [Str (path (old_file delta))] ;;
      ret header'
    else ret header.
Proof. reflexivity. Qed.

Lemma long_ignored_entry_shape :
  forall s header,
    long_ignored_entry s header =
    if status s =? GIT_STATUS_IGNORED then
      header' <-
        (if negb header then
           printf ("# Ignored files:" ++ nl) [] ;;
           printf ("#   (use " ++ dq ++ "git add -f <file>..." ++ dq
                   ++ " to include in what will be committed)" ++ nl) [] ;;
           printf ("#" ++ nl) [] ;;
           ret true
         else ret header) ;;
      delta <- deref (index_to_workdir s) ;;
      printf ("#" ++ tab ++ "%s" ++ nl) [Str (path (old_file delta))] ;;
      ret header'
    else ret header.
Proof. reflexivity. Qed.

Lemma short_untracked_entry_shape :
  forall s u,
    short_untracked_entry s u =
    if status s =? GIT_STATUS_WT_NEW then
      u' <- ret u ;;
      delta <- deref (index_to_workdir s) ;;
      printf ("?? %s" ++ nl) [Str (path (old_file delta))] ;;
      ret u'
    else ret u.
Proof.
  intros s []. unfold short_untracked_entry.
  destruct (status s =? GIT_STATUS_WT_NEW); [| reflexivity].
  rewrite bind_ret_l.
  destruct (index_to_workdir s) as [delta |]; cbn [deref]; [| reflexivity].
  rewrite !bind_ret_l.
  destruct (printf _ _) as [out [[] | f]]; cbn; [rewrite append_nil_r |];
    reflexivity.
Qed.

Lemma header_runs (text : io bool) (header : bool) :
  (exists out, text = (out, Ret true)) ->
  exists out header',
    (if negb header then text else ret header) = (out, Ret header').
Proof.
  intros [out ->]. destruct header; cbn; eexists _, _; reflexivity.
Qed.

(** The main pass of the short renderer tests each pointer it reads. *)
Lemma short_entry_no_deref (repo : git_repository) (s : git_status_entry)
  (u : unit) :
  outcome (short_entry repo s u) <> Fault NullDeref.
Proof.
  unfold short_entry.
  repeat match goal with
         | |- context [if ?c then _ else _] => destruct c
         | |- context [let '(_, _) := ?p in _] => destruct p
         end;
    try discriminate; apply printf_no_deref.
Qed.

Lemma long_untracked_entry_deref (s : git_status_entry) (header : bool) :
  outcome (long_untracked_entry s header) = Fault NullDeref ->
  status s = GIT_STATUS_WT_NEW /\ index_to_workdir s = None.
Proof.
  apply (exact_entry_deref bool long_untracked_entry GIT_STATUS_WT_NEW _ _
           long_untracked_entry_shape).
  - intros h. apply header_runs. eexists. reflexivity.
  - intros delta. apply printf_no_deref.
Qed.

Lemma long_untracked_entry_ret (s : git_status_entry) (header header' : bool) :
  outcome (long_untracked_entry s header) = Ret header' ->
  status s = GIT_STATUS_WT_NEW -> index_to_workdir s <> None.
Proof.
  apply (exact_entry_ret bool long_untracked_entry GIT_STATUS_WT_NEW _ _
           long_untracked_entry_shape).
Qed.

Lemma long_ignored_entry_deref (s : git_status_entry) (header : bool) :
  outcome (long_ignored_entry s header) = Fault NullDeref ->
  status s = GIT_STATUS_IGNORED /\ index_to_workdir s = None.
Proof.
  apply (exact_entry_deref bool long_ignored_entry GIT_STATUS_IGNORED _ _
           long_ignored_entry_shape).
  - intros h. apply header_runs. eexists. reflexivity.
  - intros delta. apply printf_no_deref.
Qed.

Lemma long_ignored_entry_ret (s : git_status_entry) (header header' : bool) :
  outcome (long_ignored_entry s header) = Ret header' ->
  status s = GIT_STATUS_IGNORED -> index_to_workdir s <> None.
Proof.
  apply (exact_entry_ret bool long_ignored_entry GIT_STATUS_IGNORED _ _
           long_ignored_entry_shape).
Qed.

Lemma short_untracked_entry_deref (s : git_status_entry) (u : unit) :
  outcome (short_untracked_entry s u) = Fault NullDeref ->
  status s = GIT_STATUS_WT_NEW /\ index_to_workdir s = None.
Proof.
  apply (exact_entry_deref unit short_untracked_entry GIT_STATUS_WT_NEW _ _
           short_untracked_entry_shape).
  - intros u'. eexists _, _. reflexivity.
  - intros delta. apply printf_no_deref.
Qed.

Lemma short_untracked_entry_ret (s : git_status_entry) (u u' : unit) :
  outcome (short_untracked_entry s u) = Ret u' ->
  status s = GIT_STATUS_WT_NEW -> index_to_workdir s <> None.
Proof.
  apply (exact_entry_ret unit short_untracked_entry GIT_STATUS_WT_NEW _ _
           short_untracked_entry_shape).
Qed.

(** The reads that find no delta. *)
Lemma long_index_entry_absent (s : git_status_entry) (locals : bool * bool) :
  index_side (status s) = true -> head_to_index s = None ->
  outcome (long_index_entry s locals) = Fault NullDeref.
Proof.
  destruct locals as [header rm]. unfold long_index_entry. intros Hside Hnone.
  rewrite (index_side_not_current _ Hside), Hnone.
  apply long_istatus_index_side in Hside.
  destruct (long_istatus (status s)) as [glyph |]; [| contradiction].
  destruct header; reflexivity.
Qed.

Lemma long_untracked_entry_absent (s : git_status_entry) (header : bool) :
  status s = GIT_STATUS_WT_NEW -> index_to_workdir s = None ->
  outcome (long_untracked_entry s header) = Fault NullDeref.
Proof.
  apply (exact_entry_absent bool long_untracked_entry GIT_STATUS_WT_NEW _ _
           long_untracked_entry_shape).
  intros h. apply header_runs. eexists. reflexivity.
Qed.

Lemma long_ignored_entry_absent (s : git_status_entry) (header : bool) :
  status s = GIT_STATUS_IGNORED -> index_to_workdir s = None ->
  outcome (long_ignored_entry s header) = Fault NullDeref.
Proof.
  apply (exact_entry_absent bool long_ignored_entry GIT_STATUS_IGNORED _ _
           long_ignored_entry_shape).
  intros h. apply header_runs. eexists. reflexivity.
Qed.

Lemma short_untracked_entry_absent (s : git_status_entry) (u : unit) :
  status s = GIT_STATUS_WT_NEW -> index_to_workdir s = None ->
  outcome (short_untracked_entry s u) = Fault NullDeref.
Proof.
  apply (exact_entry_absent unit short_untracked_entry GIT_STATUS_WT_NEW _ _
           short_untracked_entry_shape).
  intros u'. eexists _, _. reflexivity.
Qed.

Lemma print_long_no_deref (repo : git_repository) (l : git_status_list) :
  Forall long_deltas_present l ->
  outcome (print_long repo l) <> Fault NullDeref.
Proof.
  intros Hall H. rewrite Forall_forall in Hall.
  unfold print_long in H.
  apply outcome_bind_fault in H. destruct H as [H | [[c rm] [_ H]]].
  { unfold long_index_pass in H.
    apply outcome_bind_fault in H. destruct H as [H | [[h rm] [_ H]]].
    - apply for_each_fault in H. destruct H as [e [locals [Hin H]]].
      apply long_index_entry_deref in H. destruct H as [Hside Hnone].
      exact (proj1 (Hall e Hin) Hside Hnone).
    - destruct h; cbn in H; discriminate H. }
  apply outcome_bind_fault in H. destruct H as [H | [changed [_ H]]].
  { unfold long_workdir_pass in H.
    apply outcome_bind_fault in H. destruct H as [H | [h [_ H]]].
    - apply for_each_fault in H. destruct H as [e [locals [_ H]]].
      exact (long_workdir_entry_no_deref _ _ _ H).
    - destruct h; cbn in H; discriminate H. }
  apply outcome_bind_fault in H. destruct H as [H | [h3 [_ H]]].
  { apply for_each_fault in H. destruct H as [e [locals [Hin H]]].
    apply long_untracked_entry_deref in H. destruct H as [Hst Hnone].
    exact (proj2 (Hall e Hin) (or_introl Hst) Hnone). }
  apply outcome_bind_fault in H. destruct H as [H | [h4 [_ H]]].
  { apply for_each_fault in H. destruct H as [e [locals [Hin H]]].
    apply long_ignored_entry_deref in H. destruct H as [Hst Hnone].
    exact (proj2 (Hall e Hin) (or_intror Hst) Hnone). }
  destruct (negb c && changed); [exact (printf_no_deref _ _ H) | discriminate H].
Qed.

Lemma print_short_no_deref (repo : git_repository) (l : git_status_list) :
  Forall short_deltas_present l ->
  outcome (print_short repo l) <> Fault NullDeref.
Proof.
  intros Hall H. rewrite Forall_forall in Hall.
  unfold print_short in H.
  apply outcome_bind_fault in H. destruct H as [H | [u [_ H]]].
  - apply for_each_fault in H. destruct H as [e [locals [_ H]]].
    exact (short_entry_no_deref _ _ _ H).
  - apply for_each_fault in H. destruct H as [e [locals [Hin H]]].
    apply short_untracked_entry_deref in H. destruct H as [Hst Hnone].
    exact (Hall e Hin Hst Hnone).
Qed.

Lemma print_long_ret_deltas (repo : git_repository) (l : git_status_list) :
  outcome (print_long repo l) = Ret tt -> Forall long_deltas_present l.
Proof.
  intros H. unfold print_long in H.
  apply outcome_bind_ret in H. destruct H as [[c rm] [H1 H]].
  apply outcome_bind_ret in H. destruct H as [changed [_ H]].
  apply outcome_bind_ret in H. destruct H as [h3 [H3 H]].
  apply outcome_bind_ret in H. destruct H as [h4 [H4 _]].
  unfold long_index_pass in H1.
  apply outcome_bind_ret in H1. destruct H1 as [locals [H1 _]].
  apply Forall_forall. intros e Hin. split.
  - destruct (for_each_ret _ _ _ _ H1 e Hin) as [s1 [s2 He]].
    exact (long_index_entry_ret _ _ _ He).
  - intros [Hst | Hst].
    + destruct (for_each_ret _ _ _ _ H3 e Hin) as [s1 [s2 He]].
      exact (long_untracked_entry_ret _ _ _ He Hst).
    + destruct (for_each_ret _ _ _ _ H4 e Hin) as [s1 [s2 He]].
      exact (long_ignored_entry_ret _ _ _ He Hst).
Qed.

Lemma print_short_ret_deltas (repo : git_repository) (l : git_status_list) :
  outcome (print_short repo l) = Ret tt -> Forall short_deltas_present l.
Proof.
  intros H. unfold print_short in H.
  apply outcome_bind_ret in H. destruct H as [u [_ H]].
  apply Forall_forall. intros e Hin.
  destruct (for_each_ret _ _ _ _ H e Hin) as [s1 [s2 He]].
  exact (short_untracked_entry_ret _ _ _ He).
Qed.

(** C9. The renderers read a delta through its pointer without a test in
    three places: the long renderer's first pass (index side, on an entry
    with an index-side flag), its third and fourth passes and the short
    renderer's second pass (worktree side, on an entry whose status is
    WtNew exactly or, for the long renderer, Ignored exactly). When every
    entry that is read this way carries the delta, no renderer ends on a
    read through an absent delta. The condition is needed: a renderer that
    runs to its end was given a list that meets it, and on an entry that
    lacks the delta the turn of the loop that reads it ends on the bad
    read. *)
Theorem deltas_present_no_null_read (repo : git_repository)
  (l : git_status_list) :
  (Forall long_deltas_present l ->
   outcome (print_long repo l) <> Fault NullDeref) /\
  (Forall short_deltas_present l ->
   outcome (print_short repo l) <> Fault NullDeref) /\
  (outcome (print_long repo l) = Ret tt -> Forall long_deltas_present l) /\
  (outcome (print_short repo l) = Ret tt -> Forall short_deltas_present l) /\
  (forall s,
     (index_side (status s) = true -> head_to_index s = None ->
      forall locals,
        outcome (long_index_entry s locals) = Fault NullDeref) /\
     (status s = GIT_STATUS_WT_NEW -> index_to_workdir s = None ->
      forall header,
        outcome (long_untracked_entry s header) = Fault NullDeref /\
        outcome (short_untracked_entry s tt) = Fault NullDeref) /\
     (status s = GIT_STATUS_IGNORED -> index_to_workdir s = None ->
      forall header,
        outcome (long_ignored_entry s header) = Fault NullDeref)).
Proof.
  split; [apply print_long_no_deref |].
  split; [apply print_short_no_deref |].
  split; [apply print_long_ret_deltas |].
  split; [apply print_short_ret_deltas |].
  intros s. split; [| split].
  - intros Hside Hnone locals. apply long_index_entry_absent; assumption.
  - intros Hst Hnone header. split.
    + apply long_untracked_entry_absent; assumption.
    + apply short_untracked_entry_absent; assumption.
  - intros Hst Hnone header. apply long_ignored_entry_absent; assumption.
Qed.

(** *** Whole runs *)

Lemma for_each_all_skip {E L : Type} (body : E -> L -> io L) (l : list E) :
  Forall (fun e => forall s, body e s = ret s) l ->
  forall s, for_each body l s = ret s.
Proof.
  induction 1 as [| e l He _ IH]; intros s; cbn.
  - reflexivity.
  - rewrite He, bind_ret_l. apply IH.
Qed.

Lemma print_long_clean (repo : git_repository) (entries : git_status_list) :
  clean entries -> print_long repo entries = ret tt.
Proof.
  intros H. unfold print_long, long_index_pass, long_workdir_pass.
  rewrite (for_each_all_skip long_index_entry).
  2:{ eapply Forall_impl; [| exact H]. intros e He locals.
      apply long_index_entry_current, He. }
  rewrite !bind_ret_l.
  rewrite (for_each_all_skip (long_workdir_entry false)).
  2:{ eapply Forall_impl; [| exact H]. intros e He header.
      apply long_workdir_entry_current, He. }
  rewrite !bind_ret_l.
  rewrite (for_each_all_skip long_untracked_entry).
  2:{ eapply Forall_impl; [| exact H]. intros e He header.
      apply long_untracked_entry_current, He. }
  rewrite !bind_ret_l.
  rewrite (for_each_all_skip long_ignored_entry).
  2:{ eapply Forall_impl; [| exact H]. intros e He header.
      apply long_ignored_entry_current, He. }
  rewrite !bind_ret_l. reflexivity.
Qed.

Lemma print_short_clean (repo : git_repository) (entries : git_status_list) :
  clean entries -> print_short repo entries = ret tt.
Proof.
  intros H. unfold print_short.
  rewrite (for_each_all_skip (short_entry repo)).
  2:{ eapply Forall_impl; [| exact H]. intros e He u.
      apply short_entry_current, He. }
  rewrite bind_ret_l.
  apply for_each_all_skip.
  eapply Forall_impl; [| exact H]. intros e He u.
  apply short_untracked_entry_current, He.
Qed.

Lemma main_run (lib : libgit2) (argv : list string) :
  main lib argv = bind (parse_opts main_opts argv) (run lib).
Proof. reflexivity. Qed.

(** The run on an open, non-bare repository whose status list is built. *)
Lemma run_built (lib : libgit2) (o : opts) (repo : git_repository)
  (entries : git_status_list) :
  git_repository_open_ext lib (repodir o) = (0, Some repo) ->
  git_repository_is_bare repo = false ->
  git_status_list_new repo (statusopt o) = (0, Some entries) ->
  run lib o =
  ((if negb (showbranch o =? 0) then show_branch repo (format o) else ret tt) ;;
   (if format o =? FORMAT_LONG
    then print_long repo entries
    else print_short repo entries) ;;
   ret 0).
Proof.
  intros Hopen Hbare Hnew. unfold run. rewrite Hopen. cbn [check_lg2 Z.eqb].
  rewrite bind_ret_l. cbn [deref]. rewrite bind_ret_l, Hbare, bind_ret_l, Hnew.
  cbn [check_lg2 Z.eqb]. rewrite bind_ret_l. cbn [deref].
  rewrite bind_ret_l. reflexivity.
Qed.

Lemma show_branch_main (repo : git_repository) (format : Z) :
  git_repository_head repo
  = (0, Some {| git_reference_name := "refs/heads/main" |}) ->
  show_branch repo format
  = ((if format =? FORMAT_LONG then "# On branch " else "## ")
     ++ "main" ++ nl, Ret tt).
Proof.
  intros H. unfold show_branch. rewrite H.
  assert ((0 =? GIT_EUNBORNBRANCH) || (0 =? GIT_ENOTFOUND) = false) as ->.
  { apply orb_false_iff. rewrite !Z.eqb_neq.
    pose proof GIT_EUNBORNBRANCH_failure. pose proof GIT_ENOTFOUND_failure.
    split; congruence. }
  destruct (format =? FORMAT_LONG); reflexivity.
Qed.

(** *** The exit status *)

Lemma exit_status_zero (r : res Z) : exit_status r = Some 0 <-> r = Ret 0.
Proof.
  split; [| intros ->; reflexivity].
  destruct r as [v | [| | message extra]]; cbn; intros [= H].
  - rewrite H. reflexivity.
  - exfalso. exact (EXIT_FATAL_failure H).
Qed.

Lemma check_lg2_ret (error : Z) (message : string) (extra : option string)
  (u : unit) :
  outcome (check_lg2 error message extra) = Ret u -> error = 0.
Proof.
  unfold check_lg2. destruct (Z.eqb_spec error 0); [trivial | discriminate].
Qed.

Lemma deref_ret {A : Type} (p : option A) (a : A) :
  outcome (deref p) = Ret a -> p = Some a.
Proof. destruct p; cbn; [intros [= ->]; reflexivity | discriminate]. Qed.

(** C2, amended. The process exits 0 only if the status list was built,
    and a run in which building it fails exits with another status. A run
    in which it is built exits 0 exactly when, besides, the branch banner
    (when it is asked for) and the renderer run to their end: a failure to
    resolve HEAD other than Unborn and NotFound is fatal after the list is
    built. *)
Theorem exit_zero_needs_status_list (lib : libgit2) (argv : list string) :
  (exit_status (outcome (main lib argv)) = Some 0 ->
   exists o repo entries,
     outcome (parse_opts main_opts argv) = Ret o /\
     git_repository_open_ext lib (repodir o) = (0, Some repo) /\
     git_status_list_new repo (statusopt o) = (0, Some entries)) /\
  (forall o repo error entries,
     outcome (parse_opts main_opts argv) = Ret o ->
     git_repository_open_ext lib (repodir o) = (0, Some repo) ->
     git_repository_is_bare repo = false ->
     git_status_list_new repo (statusopt o) = (error, entries) ->
     error <> 0 ->
     exists code,
       exit_status (outcome (main lib argv)) = Some code /\ code <> 0) /\
  (forall o repo entries,
     outcome (parse_opts main_opts argv) = Ret o ->
     git_repository_open_ext lib (repodir o) = (0, Some repo) ->
     git_repository_is_bare repo = false ->
     git_status_list_new repo (statusopt o) = (0, Some entries) ->
     (exit_status (outcome (main lib argv)) = Some 0 <->
      (showbranch o <> 0 -> outcome (show_branch repo (format o)) = Ret tt) /\
      outcome (if format o =? FORMAT_LONG
               then print_long repo entries
               else print_short repo entries) = Ret tt)).
Proof.
  rewrite main_run. split; [| split].
  - intros H. apply exit_status_zero in H.
    apply outcome_bind_ret in H. destruct H as [o [Hparse H]].
    exists o. unfold run in H.
    destruct (git_repository_open_ext lib (repodir o)) as [e1 r1].
    apply outcome_bind_ret in H. destruct H as [u1 [H1 H]].
    apply check_lg2_ret in H1. subst e1.
    apply outcome_bind_ret in H. destruct H as [repo [H2 H]].
    apply deref_ret in H2. subst r1.
    apply outcome_bind_ret in H. destruct H as [u2 [_ H]].
    destruct (git_status_list_new repo (statusopt o)) as [e2 r2] eqn:Hnew.
    apply outcome_bind_ret in H. destruct H as [u3 [H3 H]].
    apply check_lg2_ret in H3. subst e2.
    apply outcome_bind_ret in H. destruct H as [entries [H4 _]].
    apply deref_ret in H4. subst r2.
    exists repo, entries. split; [exact Hparse | split; [reflexivity | exact Hnew]].
  - intros o repo error entries Hparse Hopen Hbare Hnew Herr.
    exists EXIT_FATAL. split; [| exact EXIT_FATAL_failure].
    destruct (parse_opts main_opts argv) as [out r]. cbn in Hparse. subst r.
    rewrite bind_run. cbn [outcome snd]. unfold run. rewrite Hopen.
    cbn [check_lg2 Z.eqb]. rewrite bind_ret_l. cbn [deref].
    rewrite bind_ret_l, Hbare, bind_ret_l, Hnew.
    unfold check_lg2. apply Z.eqb_neq in Herr. rewrite Herr. reflexivity.
  - intros o repo entries Hparse Hopen Hbare Hnew.
    destruct (parse_opts main_opts argv) as [out r]. cbn in Hparse. subst r.
    rewrite bind_run. cbn [outcome snd].
    rewrite (run_built lib o repo entries Hopen Hbare Hnew).
    rewrite exit_status_zero. split.
    + intros H.
      apply outcome_bind_ret in H. destruct H as [[] [Hb H]].
      apply outcome_bind_ret in H. destruct H as [[] [Hr _]].
      split; [| exact Hr].
      intros Hshow. apply Z.eqb_neq in Hshow. rewrite Hshow in Hb. exact Hb.
    + intros [Hb Hr].
      destruct (Z.eqb_spec (showbranch o) 0) as [E | E]; cbn [negb].
      * rewrite bind_ret_l.
        destruct (if format o =? FORMAT_LONG then _ else _) as [out2 r2].
        cbn in Hr. subst r2. reflexivity.
      * specialize (Hb E).
        destruct (show_branch repo (format o)) as [out1 r1].
        cbn in Hb. subst r1. rewrite bind_run. cbn [outcome snd].
        destruct (if format o =? FORMAT_LONG then _ else _) as [out2 r2].
        cbn in Hr. subst r2. reflexivity.
Qed.


(** *** What the option parser leaves behind *)

(** What an argument that is accepted can change. *)
Lemma parse_arg_effect (a : string) (o o' : opts) (out : string) :
  parse_arg a o = (out, Ret o') ->
  out = "" /\
  so_pathspec (statusopt o') = so_pathspec (statusopt o) /\
  (format o' = format o \/ format o' = FORMAT_LONG \/
   format o' = FORMAT_SHORT \/ format o' = FORMAT_PORCELAIN) /\
  (showbranch o' = showbranch o \/ showbranch o' = 1) /\
  (zterm o' = zterm o \/ zterm o' = 1).
Proof.
  unfold parse_arg, check_lg2, fatal.
  repeat match goal with
         | |- context [if ?c then _ else _] => destruct c
         end;
    cbn; intros [= <- <-]; cbn; auto 10.
Qed.

Lemma parse_loop_effect (args : list string) :
  forall o out o',
    for_each parse_arg args o = (out, Ret o') ->
    so_pathspec (statusopt o') = so_pathspec (statusopt o) /\
    (opts_in_range o -> opts_in_range o').
Proof.
  induction args as [| a args IH]; intros o out o'; cbn.
  - intros [= <- <-]. auto.
  - destruct (parse_arg a o) as [out1 [o1 | f]] eqn:Ha; [| discriminate].
    apply parse_arg_effect in Ha. destruct Ha as [-> [Hp [Hf [Hb Hz]]]].
    rewrite bind_pure. intros H. apply IH in H. destruct H as [Hp' Hr].
    split; [congruence |].
    intros [Rf [Rb Rz]]. apply Hr. unfold opts_in_range.
    repeat split.
    + destruct Hf as [-> | Hf]; [exact Rf | tauto].
    + destruct Hb as [-> | Hb]; [exact Rb | tauto].
    + destruct Hz as [-> | Hz]; [exact Rz | tauto].
Qed.

Lemma main_opts_in_range : opts_in_range main_opts.
Proof. unfold opts_in_range. cbn. auto. Qed.

Lemma parse_opts_leaves_normal (argv : list string) (out : string) (o : opts) :
  parse_opts main_opts argv = (out, Ret o) -> opts_normal o.
Proof.
  unfold parse_opts.
  destruct (for_each parse_arg (List.tl argv) main_opts)
    as [out1 [o1 | f]] eqn:Hloop; [| discriminate].
  apply parse_loop_effect in Hloop. destruct Hloop as [_ Hr].
  destruct (Hr main_opts_in_range) as [Rf [Rb Rz]].
  rewrite bind_run. cbn [outcome snd stdout fst ret]. intros [= _ <-].
  unfold opts_normal, FORMAT_DEFAULT, FORMAT_LONG, FORMAT_SHORT,
    FORMAT_PORCELAIN in *.
  repeat (match goal with
          | |- context [if ?c then _ else _] =>
              lazymatch c with
              | context [if _ then _ else _] => fail
              | _ => destruct c eqn:?
              end
          end; cbn);
    repeat match goal with
           | H : (_ =? _) = true |- _ => apply Z.eqb_eq in H
           | H : (_ =? _) = false |- _ => apply Z.eqb_neq in H
           end;
    lia.
Qed.

(** X1. A command line that parse_opts accepts leaves a format chosen
    (long, short or porcelain, never the default), the branch banner on
    whenever the format is long, and showbranch and zterm at 0 or 1. *)
Theorem parse_opts_normal (argv : list string) (out : string) (o : opts) :
  parse_opts main_opts argv = (out, Ret o) -> opts_normal o.
Proof. apply parse_opts_leaves_normal. Qed.

(** X2. The status query of an accepted command line asks for exactly the
    paths of the command line: its pathspec holds the arguments that do
    not start with a dash, in their order, and counts them. *)
Theorem parse_opts_query_pathspec (argv : list string) (out : string)
  (o : opts) :
  parse_opts main_opts argv = (out, Ret o) ->
  strings (so_pathspec (statusopt o)) = List.filter non_option (List.tl argv) /\
  count (so_pathspec (statusopt o))
  = Z.of_nat (List.length (List.filter non_option (List.tl argv))).
Proof.
  unfold parse_opts.
  destruct (for_each parse_arg (List.tl argv) main_opts)
    as [out1 [o1 | f]] eqn:Hloop; [| discriminate].
  pose proof (parse_loop_ret _ _ _ _ main_opts_counted Hloop)
    as [_ [[Hn _] Hp]].
  apply parse_loop_effect in Hloop. destruct Hloop as [Hs _].
  cbn [main_opts pathspec set_statusopt app] in Hp.
  rewrite bind_run. cbn [outcome snd stdout fst ret]. intros [= _ <-].
  assert (Hkeep : forall p, pathspec p = pathspec o1 -> npaths p = npaths o1 ->
            statusopt p = statusopt o1 ->
            strings (so_pathspec (statusopt
              (if 0 <? npaths p
               then set_statusopt p (set_so_pathspec (statusopt p)
                      {| strings := pathspec p; count := npaths p |})
               else p)))
            = List.filter non_option (List.tl argv) /\
            count (so_pathspec (statusopt
              (if 0 <? npaths p
               then set_statusopt p (set_so_pathspec (statusopt p)
                      {| strings := pathspec p; count := npaths p |})
               else p)))
            = Z.of_nat (List.length (List.filter non_option (List.tl argv)))).
  { intros p Ep En Es. rewrite En, Ep, Es.
    destruct (Z.ltb_spec 0 (npaths o1)) as [Hpos | Hzero]; cbv iota.
    - cbn. rewrite <- Hp. auto.
    - rewrite Es, Hs. cbn. rewrite <- Hp.
      assert (List.length (pathspec o1) = 0%nat) as E by lia.
      rewrite E. destruct (pathspec o1); [auto | discriminate E]. }
  destruct (format o1 =? FORMAT_DEFAULT); cbn [format set_format];
    match goal with
    | |- context [if ?c then set_showbranch ?p 1 else _] =>
        destruct c; apply Hkeep; reflexivity
    end.
Qed.


(** *** Comparing C strings *)

Lemma strcmp_eq (a : string) :
  no_nul a = true ->
  forall b, no_nul b = true -> (strcmp a b = 0 <-> a = b).
Proof.
  induction a as [| c a IH]; cbn; intros Ha [| d b]; cbn; intros Hb.
  - tauto.
  - apply andb_true_iff in Hb. destruct Hb as [Hd _].
    apply negb_true_iff in Hd. split; [| discriminate].
    intros H. assert (d = zero) as -> by (apply uchar_zero; lia).
    discriminate Hd.
  - apply andb_true_iff in Ha. destruct Ha as [Hc _].
    apply negb_true_iff in Hc. split; [| discriminate].
    intros H. assert (c = zero) as -> by (apply uchar_zero; lia).
    discriminate Hc.
  - apply andb_true_iff in Ha, Hb. destruct Ha as [Hc Ha], Hb as [_ Hb].
    apply negb_true_iff in Hc.
    destruct (Ascii.eqb_spec c d) as [-> | Hne].
    + rewrite Hc, (IH Ha b Hb). split; [intros ->; reflexivity |].
      intros [= ->]. reflexivity.
    + split.
      * intros H. exfalso. apply Hne, uchar_inj. lia.
      * intros [= -> _]. contradiction.
Qed.

Lemma streq_eqb (a b : string) :
  no_nul a = true -> no_nul b = true -> streq a b = String.eqb a b.
Proof.
  intros Ha Hb. unfold streq.
  destruct (String.eqb_spec a b) as [E | E].
  - apply Z.eqb_eq, strcmp_eq; assumption.
  - apply Z.eqb_neq. intros H. apply E, (strcmp_eq a Ha b Hb), H.
Qed.

Lemma non_option_not_dashed (a lit : string) :
  non_option a = true -> first_char lit = "-"%char -> String.eqb a lit = false.
Proof.
  unfold non_option. intros Ha Hlit.
  destruct (String.eqb_spec a lit) as [-> | _]; [| reflexivity].
  rewrite Hlit in Ha. discriminate Ha.
Qed.

(** *** The format a command line chooses *)

Lemma parse_arg_format (a : string) (o o' : opts) :
  no_nul a = true ->
  outcome (parse_arg a o) = Ret o' ->
  format o' =
  match format_option a with
  | Some f => f
  | None =>
      if String.eqb a "-z" && (format o =? FORMAT_DEFAULT)
      then FORMAT_PORCELAIN
      else format o
  end.
Proof.
  intros Ha. unfold format_option.
  destruct (non_option a) eqn:Hn.
  - rewrite (parse_arg_path a o Hn).
    rewrite !(non_option_not_dashed a _ Hn) by reflexivity. cbn [orb andb].
    destruct (npaths o <? MAX_PATHSPEC); [| discriminate].
    intros [= <-]. reflexivity.
  - unfold parse_arg. unfold non_option in Hn. rewrite Hn.
    rewrite !(streq_eqb a) by (exact Ha || reflexivity).
    destruct (String.eqb a "-s"), (String.eqb a "--short"); cbn [orb];
      try (intros [= <-]; reflexivity).
    destruct (String.eqb a "--long"); [intros [= <-]; reflexivity |].
    destruct (String.eqb a "--porcelain"); [intros [= <-]; reflexivity |].
    destruct (String.eqb a "-z") eqn:Hz.
    + apply String.eqb_eq in Hz. subst a. cbn.
      destruct (format o =? FORMAT_DEFAULT); intros [= <-]; reflexivity.
    + cbn [andb].
      repeat match goal with
             | |- context [if ?c then _ else _] => destruct c
             end;
        cbn; intros [= <-]; reflexivity.
Qed.

Lemma format_option_named (a : string) (f : Z) :
  format_option a = Some f ->
  f = FORMAT_LONG \/ f = FORMAT_SHORT \/ f = FORMAT_PORCELAIN.
Proof.
  unfold format_option.
  repeat match goal with
         | |- context [if ?c then _ else _] => destruct c
         end;
    intros [= <-]; auto.
Qed.

Lemma last_format_option_named (args : list string) (f : Z) :
  last_format_option args = Some f ->
  f = FORMAT_LONG \/ f = FORMAT_SHORT \/ f = FORMAT_PORCELAIN.
Proof.
  induction args as [| a args IH]; cbn; [discriminate |].
  destruct (last_format_option args) as [g |].
  - intros [= <-]. apply IH. reflexivity.
  - apply format_option_named.
Qed.

Lemma parse_loop_format (args : list string) :
  c_strings args ->
  forall o o',
    outcome (for_each parse_arg args o) = Ret o' ->
    format o' =
    match last_format_option args with
    | Some f => f
    | None =>
        if (format o =? FORMAT_DEFAULT)
           && List.existsb (fun a => String.eqb a "-z") args
        then FORMAT_PORCELAIN
        else format o
    end.
Proof.
  induction 1 as [| a args Ha _ IH]; intros o o'; cbn [for_each].
  - intros [= <-]. cbn. rewrite andb_false_r. reflexivity.
  - intros H. apply outcome_bind_ret in H. destruct H as [o1 [H1 H]].
    apply (parse_arg_format a o o1 Ha) in H1. apply IH in H.
    cbn [last_format_option List.existsb].
    destruct (last_format_option args) as [f |]; [exact H |].
    rewrite H, H1. clear H H1.
    destruct (format_option a) as [g |] eqn:Hg.
    + apply format_option_named in Hg.
      unfold FORMAT_LONG, FORMAT_SHORT, FORMAT_PORCELAIN in Hg.
      destruct Hg as [-> | [-> | ->]]; reflexivity.
    + destruct (String.eqb a "-z"); cbn [andb orb].
      * destruct (format o =? FORMAT_DEFAULT) eqn:E; cbn [andb].
        -- reflexivity.
        -- rewrite E. reflexivity.
      * destruct (format o =? FORMAT_DEFAULT) eqn:E; cbn [andb];
          rewrite ?E; reflexivity.
Qed.

Lemma parse_opts_chooses_format (argv : list string) (out : string) (o : opts) :
  c_strings (List.tl argv) ->
  parse_opts main_opts argv = (out, Ret o) ->
  format o = chosen_format (List.tl argv).
Proof.
  intros Hc. unfold parse_opts, chosen_format.
  destruct (for_each parse_arg (List.tl argv) main_opts)
    as [out1 [o1 | f]] eqn:Hloop; [| discriminate].
  apply outcome_eq in Hloop. apply (parse_loop_format _ Hc) in Hloop.
  cbn [main_opts format set_statusopt] in Hloop.
  change (0 =? FORMAT_DEFAULT) with true in Hloop. cbn [andb] in Hloop.
  rewrite bind_run. cbn [outcome snd stdout fst ret]. intros [= _ <-].
  assert (Hkeep : forall (p : opts) (q : git_status_options),
            format (if 0 <? npaths p then set_statusopt p q else p) = format p).
  { intros p q. destruct (0 <? npaths p); reflexivity. }
  assert (Hbanner : forall p : opts,
            format (if format p =? FORMAT_LONG then set_showbranch p 1 else p)
            = format p).
  { intros p. destruct (format p =? FORMAT_LONG); reflexivity. }
  cbv zeta. rewrite Hkeep, Hbanner.
  destruct (last_format_option (List.tl argv)) as [g |] eqn:Hlast.
  - apply last_format_option_named in Hlast.
    unfold FORMAT_DEFAULT, FORMAT_LONG, FORMAT_SHORT, FORMAT_PORCELAIN in *.
    destruct Hlast as [-> | [-> | ->]]; rewrite Hloop; cbn [Z.eqb];
      exact Hloop.
  - destruct (List.existsb (fun a => String.eqb a "-z") (List.tl argv));
      rewrite Hloop; cbn; try exact Hloop; reflexivity.
Qed.

(** X3. The format of an accepted command line is the one its last format
    option names (-s, --short, --long, --porcelain); when it names none,
    the format is porcelain if -z is among the arguments and long
    otherwise. *)
Theorem parse_opts_format (argv : list string) (out : string) (o : opts) :
  c_strings (List.tl argv) ->
  parse_opts main_opts argv = (out, Ret o) ->
  format o = chosen_format (List.tl argv).
Proof. apply parse_opts_chooses_format. Qed.


(** *** The repository a command line names *)

Lemma parse_arg_git_dir (dir : string) (o : opts) :
  parse_arg ("--git-dir=" ++ dir) o = ret (set_repodir o dir).
Proof. reflexivity. Qed.

Lemma parse_arg_repodir (a : string) (o o' : opts) :
  ~ names_git_dir a ->
  outcome (parse_arg a o) = Ret o' ->
  repodir o' = repodir o.
Proof.
  intros Hno. unfold parse_arg.
  assert ((strncmp a "--git-dir=" (strlen "--git-dir=") =? 0) = false) as ->.
  { apply Z.eqb_neq. intros H. apply Hno.
    apply (strncmp_prefix "--git-dir=" eq_refl a), H. }
  unfold check_lg2, fatal.
  repeat match goal with
         | |- context [if ?c then _ else _] => destruct c
         end;
    cbn; intros [= <-]; reflexivity.
Qed.

Lemma parse_loop_repodir (args : list string) :
  Forall (fun a => ~ names_git_dir a) args ->
  forall o o',
    outcome (for_each parse_arg args o) = Ret o' ->
    repodir o' = repodir o.
Proof.
  induction 1 as [| a args Ha _ IH]; intros o o'; cbn [for_each].
  - intros [= <-]. reflexivity.
  - intros H. apply outcome_bind_ret in H. destruct H as [o1 [H1 H]].
    apply (parse_arg_repodir a o o1 Ha) in H1. apply IH in H. congruence.
Qed.

Lemma parse_opts_loop (o : opts) (argv : list string) (out : string)
  (o' : opts) :
  parse_opts o argv = (out, Ret o') ->
  exists o1,
    outcome (for_each parse_arg (List.tl argv) o) = Ret o1 /\
    repodir o' = repodir o1.
Proof.
  unfold parse_opts. intros H. apply outcome_eq in H.
  apply outcome_bind_ret in H. destruct H as [o1 [Hloop H]].
  exists o1. split; [exact Hloop |].
  cbn in H. injection H as <-.
  repeat match goal with
         | |- context [if ?c then _ else _] => destruct c
         end;
    reflexivity.
Qed.

(** X4. The directory an accepted command line opens is the one its last
    --git-dir=<path> argument names, and the current directory [.] when it
    has no such argument. *)
Theorem parse_opts_repodir (argv : list string) (out : string) (o : opts) :
  parse_opts main_opts argv = (out, Ret o) ->
  (Forall (fun a => ~ names_git_dir a) (List.tl argv) -> repodir o = ".") /\
  (forall before dir after,
     List.tl argv = (before ++ ("--git-dir=" ++ dir)%string :: after)%list ->
     Forall (fun a => ~ names_git_dir a) after ->
     repodir o = dir).
Proof.
  intros H. apply parse_opts_loop in H. destruct H as [o1 [Hloop ->]].
  split.
  - intros Hno. apply (parse_loop_repodir _ Hno) in Hloop. exact Hloop.
  - intros before dir after Hargv Hno.
    rewrite Hargv, for_each_app in Hloop.
    apply outcome_bind_ret in Hloop. destruct Hloop as [o2 [_ Hloop]].
    cbn [for_each] in Hloop. rewrite parse_arg_git_dir, bind_ret_l in Hloop.
    apply (parse_loop_repodir _ Hno) in Hloop. exact Hloop.
Qed.

(** *** The fatal ends of a run *)

Lemma parse_opts_silent (argv : list string) (out : string) (o : opts) :
  parse_opts main_opts argv = (out, Ret o) -> out = "".
Proof.
  unfold parse_opts.
  destruct (for_each parse_arg (List.tl argv) main_opts)
    as [out1 [o1 | f]] eqn:Hloop; [| discriminate].
  apply parse_loop_ret in Hloop; [| exact main_opts_counted].
  destruct Hloop as [-> _]. rewrite bind_pure. intros [= <- _]. reflexivity.
Qed.

(** *** Options that change nothing a run can see *)

Lemma same_run_refl (o : opts) : same_run o o.
Proof. unfold same_run. auto 10. Qed.

Lemma same_parse_refl (m : io opts) : same_parse m m.
Proof.
  destruct m as [out [o | f]]; cbn; split; auto using same_run_refl.
Qed.

Lemma parse_arg_same_run (a : string) (o o' : opts) :
  same_run o o' -> same_parse (parse_arg a o) (parse_arg a o').
Proof.
  destruct o as [so dir ps n f z b], o' as [so' dir' ps' n' f' z' b'].
  unfold same_run, short_or_porcelain. cbn.
  intros [<- [<- [<- [<- [<- Hf]]]]].
  unfold parse_arg, check_lg2, fatal, same_run, short_or_porcelain,
    FORMAT_DEFAULT, FORMAT_LONG, FORMAT_SHORT, FORMAT_PORCELAIN in *.
  cbn.
  destruct Hf as [<- | [[-> | ->] [-> | ->]]]; cbn;
    repeat match goal with
           | |- context [if ?c then _ else _] => destruct c
           end;
    cbn; unfold same_run, short_or_porcelain; cbn; auto 12.
Qed.

Lemma parse_loop_same_run (args : list string) :
  forall o o',
    same_run o o' ->
    same_parse (for_each parse_arg args o) (for_each parse_arg args o').
Proof.
  induction args as [| a args IH]; intros o o' H; cbn [for_each].
  - cbn. auto.
  - pose proof (parse_arg_same_run a o o' H) as Ha.
    destruct (parse_arg a o) as [out [o1 | f]],
      (parse_arg a o') as [out' [o1' | f']]; cbn in Ha; try contradiction.
    + destruct Ha as [<- H1]. specialize (IH o1 o1' H1).
      rewrite !bind_run.
      destruct (for_each parse_arg args o1) as [out2 [o2 | f2]],
        (for_each parse_arg args o1') as [out2' [o2' | f2']];
        cbn in *; try contradiction; destruct IH as [<- IH]; auto.
    + destruct Ha as [<- <-]. cbn. auto.
Qed.

Lemma run_same_run (lib : libgit2) (o o' : opts) :
  same_run o o' -> run lib o = run lib o'.
Proof.
  destruct o as [so dir ps n f z b], o' as [so' dir' ps' n' f' z' b'].
  unfold same_run. cbn. intros [<- [<- [<- [<- [<- Hf]]]]].
  destruct Hf as [<- | [[-> | ->] [-> | ->]]]; reflexivity.
Qed.

(** The settings that leave parse_opts, from those that leave its loop. *)
Lemma parse_opts_same_run (args args' : list string) (prog prog' : string) :
  same_parse (for_each parse_arg args main_opts)
             (for_each parse_arg args' main_opts) ->
  same_parse (parse_opts main_opts (prog :: args))
             (parse_opts main_opts (prog' :: args')).
Proof.
  unfold parse_opts. cbn [List.tl].
  destruct (for_each parse_arg args main_opts) as [out [o | f]],
    (for_each parse_arg args' main_opts) as [out' [o' | f']];
    cbn [same_parse]; try contradiction.
  - intros [<- H]. rewrite !bind_run. cbn [stdout outcome fst snd ret].
    split; [reflexivity |].
    destruct o as [so dir ps n f z b], o' as [so' dir' ps' n' f' z' b'].
    unfold same_run, short_or_porcelain, FORMAT_DEFAULT, FORMAT_LONG,
      FORMAT_SHORT, FORMAT_PORCELAIN in *.
    cbn in H. destruct H as [<- [<- [<- [<- [<- Hf]]]]].
    cbn.
    destruct Hf as [<- | [[-> | ->] [-> | ->]]]; cbn;
      repeat (match goal with
              | |- context [if ?c then _ else _] =>
                  lazymatch c with
                  | context [if _ then _ else _] => fail
                  | _ => destruct c
                  end
              end; cbn);
      unfold same_run, short_or_porcelain; cbn; auto 12.
  - intros [<- <-]. cbn. auto.
Qed.

Lemma main_same_parse (lib : libgit2) (argv argv' : list string) :
  same_parse (parse_opts main_opts argv) (parse_opts main_opts argv') ->
  main lib argv = main lib argv'.
Proof.
  rewrite !main_run.
  destruct (parse_opts main_opts argv) as [out [o | f]],
    (parse_opts main_opts argv') as [out' [o' | f']];
    cbn [same_parse]; try contradiction.
  - intros [<- H]. rewrite !bind_run, (run_same_run lib o o' H). reflexivity.
  - intros [<- <-]. reflexivity.
Qed.

(** Replacing one argument by another that leaves the same settings. *)
Lemma main_replace_arg (lib : libgit2) (prog : string)
  (before after : list string) (a a' : list string) :
  (forall o out,
     for_each parse_arg before main_opts = (out, Ret o) ->
     same_parse (for_each parse_arg a o) (for_each parse_arg a' o)) ->
  main lib (prog :: before ++ a ++ after)%list
  = main lib (prog :: before ++ a' ++ after)%list.
Proof.
  intros Hsame. apply main_same_parse, parse_opts_same_run.
  rewrite !for_each_app.
  destruct (for_each parse_arg before main_opts) as [out [o | f]] eqn:Hb;
    [| cbn; auto].
  specialize (Hsame o out eq_refl). rewrite !bind_run.
  rewrite !for_each_app.
  destruct (for_each parse_arg a o) as [out1 [o1 | f1]],
    (for_each parse_arg a' o) as [out1' [o1' | f1']];
    cbn [same_parse] in Hsame; try contradiction.
  - destruct Hsame as [<- H1].
    pose proof (parse_loop_same_run after o1 o1' H1) as H2.
    rewrite !bind_run.
    destruct (for_each parse_arg after o1) as [out2 [o2 | f2]],
      (for_each parse_arg after o1') as [out2' [o2' | f2']];
      cbn in *; try contradiction; destruct H2 as [<- H2]; auto.
  - destruct Hsame as [<- <-]. cbn. auto.
Qed.

(** X6. The porcelain format is the short format: with --porcelain in the
    place of -s or --short, anywhere on the command line, the run writes
    the same output and ends the same way. *)
Theorem porcelain_is_short (lib : libgit2) (prog : string)
  (before after : list string) :
  main lib (prog :: before ++ "--porcelain" :: after)%list
  = main lib (prog :: before ++ "-s" :: after)%list /\
  main lib (prog :: before ++ "--porcelain" :: after)%list
  = main lib (prog :: before ++ "--short" :: after)%list.
Proof.
  split.
  - apply (main_replace_arg lib prog before after ["--porcelain"] ["-s"]).
    intros o out _. cbn. split; [reflexivity |].
    unfold same_run, short_or_porcelain. cbn. auto 12.
  - apply (main_replace_arg lib prog before after ["--porcelain"] ["--short"]).
    intros o out _. cbn. split; [reflexivity |].
    unfold same_run, short_or_porcelain. cbn. auto 12.
Qed.

(** X7. The option -z only chooses a format. Where no format option and no
    -z comes before it, it does what --porcelain does; after a format
    option or another -z it does nothing: the run is that of the command
    line without it. Records are never terminated by NUL. *)
Theorem zterm_only_chooses_format (lib : libgit2) (prog : string)
  (before after : list string) :
  c_strings before ->
  (last_format_option before = None ->
   List.existsb (fun a => String.eqb a "-z") before = false ->
   main lib (prog :: before ++ "-z" :: after)%list
   = main lib (prog :: before ++ "--porcelain" :: after)%list) /\
  (last_format_option before <> None \/
   List.existsb (fun a => String.eqb a "-z") before = true ->
   main lib (prog :: before ++ "-z" :: after)%list
   = main lib (prog :: before ++ after)%list).
Proof.
  intros Hc. split.
  - intros Hlast Hz.
    apply (main_replace_arg lib prog before after ["-z"] ["--porcelain"]).
    intros o out Hb. apply outcome_eq in Hb.
    apply (parse_loop_format _ Hc) in Hb. rewrite Hlast, Hz in Hb.
    cbn [main_opts format set_statusopt] in Hb. rewrite andb_false_r in Hb.
    cbn. rewrite Hb. cbn. split; [reflexivity |].
    unfold same_run. cbn. auto 12.
  - intros Hchosen.
    apply (main_replace_arg lib prog before after ["-z"] []).
    intros o out Hb. apply outcome_eq in Hb.
    apply (parse_loop_format _ Hc) in Hb.
    cbn [main_opts format set_statusopt] in Hb.
    assert (Hf : (format o =? FORMAT_DEFAULT) = false).
    { apply Z.eqb_neq. rewrite Hb.
      destruct (last_format_option before) as [f |] eqn:Hlast.
      - apply last_format_option_named in Hlast.
        unfold FORMAT_DEFAULT, FORMAT_LONG, FORMAT_SHORT, FORMAT_PORCELAIN in *.
        lia.
      - destruct Hchosen as [H | ->]; [contradiction |]. discriminate. }
    cbn. rewrite Hf. cbn. split; [reflexivity |].
    unfold same_run. cbn. auto 12.
Qed.


(** *** The last line of the long format *)

Lemma bind_assoc {A B D : Type} (m : io A) (k : A -> io B) (h : B -> io D) :
  bind (bind m k) h = bind m (fun a => bind (k a) h).
Proof.
  destruct m as [out [a | f]]; cbn; [| reflexivity].
  destruct (k a) as [out1 [b | f]]; cbn; [| reflexivity].
  destruct (h b) as [out2 r]. rewrite append_assoc. reflexivity.
Qed.

Lemma print_long_sections (repo : git_repository) (l : git_status_list) :
  print_long repo l =
  bind (long_sections l)
    (fun flags =>
       if negb (fst flags) && snd flags
       then printf ("no changes added to commit (use " ++ dq ++ "git add"
                    ++ dq ++ " and/or " ++ dq ++ "git commit -a" ++ dq
                    ++ ")" ++ nl) []
       else ret tt).
Proof.
  unfold print_long, long_sections.
  rewrite bind_assoc. apply bind_ext. intros [c rm].
  rewrite bind_assoc. apply bind_ext. intros w.
  rewrite bind_assoc. apply bind_ext. intros h3.
  rewrite bind_assoc. apply bind_ext. intros h4.
  rewrite bind_ret_l. reflexivity.
Qed.

Lemma header_set (text : io bool) (header a : bool) :
  (exists out, text = (out, Ret true)) ->
  outcome (if negb header then text else ret header) = Ret a -> a = true.
Proof.
  intros [out ->]. destruct header; cbn; intros [= <-]; reflexivity.
Qed.

Lemma long_index_entry_header (s : git_status_entry)
  (header rm header' rm' : bool) :
  outcome (long_index_entry s (header, rm)) = Ret (header', rm') ->
  header' = header || staged s.
Proof.
  unfold long_index_entry, staged.
  destruct (Z.eqb_spec (status s) GIT_STATUS_CURRENT) as [E | _].
  - intros [= <- _]. rewrite E. unfold index_side, index_flags.
    cbn [List.existsb]. rewrite !has_current. destruct header; reflexivity.
  - pose proof (long_istatus_index_side (status s)) as Hside.
    destruct (long_istatus (status s)) as [glyph |].
    + assert (index_side (status s) = true) as -> by (apply Hside; discriminate).
      rewrite orb_true_r. intros H.
      apply outcome_bind_ret in H. destruct H as [a [Ha H]].
      apply header_set in Ha; [| eexists; reflexivity]. subst a.
      apply outcome_bind_ret in H. destruct H as [d [_ H]].
      apply outcome_bind_ret in H. destruct H as [u [_ H]].
      injection H as <- _. reflexivity.
    + assert (index_side (status s) = false) as ->.
      { destruct (index_side (status s)); [| reflexivity].
        exfalso. apply (proj1 Hside); reflexivity. }
      intros [= <- _]. rewrite orb_false_r. reflexivity.
Qed.

Lemma long_index_loop_header (l : git_status_list) :
  forall header rm header' rm',
    outcome (for_each long_index_entry l (header, rm)) = Ret (header', rm') ->
    header' = header || List.existsb staged l.
Proof.
  induction l as [| s l IH]; intros header rm header' rm'; cbn.
  - intros [= <- _]. rewrite orb_false_r. reflexivity.
  - intros H. apply outcome_bind_ret in H. destruct H as [[h1 rm1] [Hs Hl]].
    apply long_index_entry_header in Hs. apply IH in Hl. subst.
    symmetry. apply orb_assoc.
Qed.

Lemma long_index_pass_flag (l : git_status_list) (c rm : bool) :
  outcome (long_index_pass l) = Ret (c, rm) -> c = List.existsb staged l.
Proof.
  unfold long_index_pass. intros H.
  apply outcome_bind_ret in H. destruct H as [[header rm1] [Hl H]].
  apply long_index_loop_header in Hl. cbn in Hl. subst header.
  destruct (List.existsb staged l); cbn in H; injection H as <- _; reflexivity.
Qed.

Lemma long_wstatus_wt_flags (st : Z) :
  List.existsb (has st) wt_flags = true <-> long_wstatus st <> None.
Proof.
  unfold wt_flags, long_wstatus. fold_has st. cbn.
  destruct (has st WtModified), (has st WtDeleted), (has st WtRenamed),
    (has st WtTypechange); cbn;
    split; intros H; try reflexivity; try discriminate; congruence.
Qed.

Lemma long_workdir_entry_header (rm : bool) (s : git_status_entry)
  (header header' : bool) :
  outcome (long_workdir_entry rm s header) = Ret header' ->
  header' = header || unstaged s.
Proof.
  unfold long_workdir_entry, unstaged.
  destruct (Z.eqb_spec (status s) GIT_STATUS_CURRENT) as [E | _].
  - intros [= <-]. rewrite E. unfold wt_flags. cbn [List.existsb].
    rewrite !has_current. destruct (index_to_workdir s), header; reflexivity.
  - destruct (index_to_workdir s) as [delta |]; cbn [orb].
    2:{ intros [= <-]. rewrite orb_false_r. reflexivity. }
    pose proof (long_wstatus_wt_flags (status s)) as Hside.
    destruct (long_wstatus (status s)) as [glyph |].
    + assert (List.existsb (has (status s)) wt_flags = true) as ->
        by (apply Hside; discriminate).
      rewrite orb_true_r. intros H.
      apply outcome_bind_ret in H. destruct H as [a [Ha H]].
      apply header_set in Ha; [| destruct rm; eexists; reflexivity]. subst a.
      apply outcome_bind_ret in H. destruct H as [d [_ H]].
      apply outcome_bind_ret in H. destruct H as [u [_ H]].
      injection H as <-. reflexivity.
    + assert (List.existsb (has (status s)) wt_flags = false) as ->.
      { destruct (List.existsb (has (status s)) wt_flags); [| reflexivity].
        exfalso. apply (proj1 Hside); reflexivity. }
      intros [= <-]. rewrite orb_false_r. reflexivity.
Qed.

Lemma long_workdir_loop_header (rm : bool) (l : git_status_list) :
  forall header header',
    outcome (for_each (long_workdir_entry rm) l header) = Ret header' ->
    header' = header || List.existsb unstaged l.
Proof.
  induction l as [| s l IH]; intros header header'; cbn.
  - intros [= <-]. rewrite orb_false_r. reflexivity.
  - intros H. apply outcome_bind_ret in H. destruct H as [h1 [Hs Hl]].
    apply long_workdir_entry_header in Hs. apply IH in Hl. subst.
    symmetry. apply orb_assoc.
Qed.

Lemma long_workdir_pass_flag (rm : bool) (l : git_status_list) (w : bool) :
  outcome (long_workdir_pass rm l) = Ret w -> w = List.existsb unstaged l.
Proof.
  unfold long_workdir_pass. intros H.
  apply outcome_bind_ret in H. destruct H as [header [Hl H]].
  apply long_workdir_loop_header in Hl. cbn in Hl. subst header.
  destruct (List.existsb unstaged l); cbn in H; injection H as <-; reflexivity.
Qed.

(** X8. When the four passes of the long renderer run to their end, the
    line [no changes added to commit ...] follows them exactly when no
    entry has an index-side flag while some entry that carries a worktree
    delta has one of the flags WtModified, WtDeleted, WtRenamed,
    WtTypechange; nothing follows them otherwise. *)
Theorem long_trailer_rule (repo : git_repository) (l : git_status_list)
  (body : string) (flags : bool * bool) :
  long_sections l = (body, Ret flags) ->
  flags = (List.existsb staged l, List.existsb unstaged l) /\
  print_long repo l
  = (body ++ (if negb (List.existsb staged l) && List.existsb unstaged l
              then long_trailer else ""), Ret tt).
Proof.
  intros H.
  assert (Hflags : flags = (List.existsb staged l, List.existsb unstaged l)).
  { apply outcome_eq in H. unfold long_sections in H.
    apply outcome_bind_ret in H. destruct H as [[c rm] [H1 H]].
    apply outcome_bind_ret in H. destruct H as [w [H2 H]].
    apply outcome_bind_ret in H. destruct H as [h3 [_ H]].
    apply outcome_bind_ret in H. destruct H as [h4 [_ H]].
    injection H as <-.
    apply long_index_pass_flag in H1. apply long_workdir_pass_flag in H2.
    subst. reflexivity. }
  split; [exact Hflags |].
  rewrite print_long_sections, H, bind_run, Hflags. cbn [fst snd].
  destruct (negb (List.existsb staged l) && List.existsb unstaged l);
    reflexivity.
Qed.


(** *** The line of a change in the long format *)

(** X9. The line the long renderer writes for a change: with both paths of
    the delta there, the glyph and the old path, followed by an arrow and
    the new path exactly when the two paths differ; with one path there,
    the glyph and that path; with none, a NULL handed to printf. *)
Theorem print_change_line (glyph : string) (delta : git_diff_delta) :
  (forall o n,
     path (old_file delta) = Some o -> path (new_file delta) = Some n ->
     no_nul o = true -> no_nul n = true ->
     print_change glyph delta = (change_line glyph o n, Ret tt)) /\
  (forall o,
     path (old_file delta) = Some o -> path (new_file delta) = None ->
     print_change glyph delta = (change_line glyph o o, Ret tt)) /\
  (forall n,
     path (old_file delta) = None -> path (new_file delta) = Some n ->
     print_change glyph delta = (change_line glyph n n, Ret tt)) /\
  (path (old_file delta) = None -> path (new_file delta) = None ->
   print_change glyph delta = crash NullString).
Proof.
  unfold print_change, change_line. repeat split.
  - intros o n -> -> Ho Hn.
    change (strcmp o n =? 0) with (streq o n).
    rewrite (streq_eqb o n Ho Hn).
    destruct (String.eqb_spec o n) as [<- | _]; reflexivity.
  - intros o -> ->. rewrite String.eqb_refl. reflexivity.
  - intros n -> ->. rewrite String.eqb_refl. reflexivity.
  - intros -> ->. reflexivity.
Qed.

(** *** Ignored entries *)

Lemma has_not_current (st : Z) (f : status_flag) :
  has st f = true -> (st =? GIT_STATUS_CURRENT) = false.
Proof.
  intros H. apply Z.eqb_neq. intros ->. rewrite has_current in H.
  discriminate H.
Qed.

Lemma short_glyphs_ignored (st : Z) :
  has st Ignored = true -> short_glyphs st = ("!"%char, "!"%char).
Proof.
  unfold short_glyphs. fold_has st. intros ->.
  destruct (if has st WtNew then _ else _). reflexivity.
Qed.

Lemma only_flag_glyphs (f : status_flag) :
  ~ In f index_flags -> ~ In f wt_flags ->
  long_istatus (flag_mask f) = None /\ long_wstatus (flag_mask f) = None.
Proof.
  intros Hi Hw. unfold long_istatus, long_wstatus. fold_has (flag_mask f).
  unfold index_flags, wt_flags in *. cbn [In] in *.
  rewrite !has_other_flag by (intros E; subst f; tauto). split; reflexivity.
Qed.

(** *** The two passes of the short renderer *)

Lemma short_glyphs_wt_new :
  short_glyphs GIT_STATUS_WT_NEW = ("?"%char, "?"%char).
Proof.
  unfold short_glyphs. fold_has GIT_STATUS_WT_NEW.
  change GIT_STATUS_WT_NEW with (flag_mask WtNew).
  rewrite has_same_flag, !has_other_flag by discriminate. reflexivity.
Qed.

(** X11. No entry is printed by both passes of the short renderer: the
    main pass skips an entry whose status is WtNew alone, and the second
    pass prints no other. *)
Theorem short_passes_disjoint (repo : git_repository) (s : git_status_entry) :
  (status s = GIT_STATUS_WT_NEW -> short_entry repo s tt = ret tt) /\
  (status s <> GIT_STATUS_WT_NEW -> short_untracked_entry s tt = ret tt) /\
  (stdout (short_entry repo s tt) = "" \/
   stdout (short_untracked_entry s tt) = "").
Proof.
  assert (H1 : status s = GIT_STATUS_WT_NEW -> short_entry repo s tt = ret tt).
  { intros Hs. unfold short_entry. rewrite Hs, short_glyphs_wt_new.
    destruct (GIT_STATUS_WT_NEW =? GIT_STATUS_CURRENT); reflexivity. }
  assert (H2 : status s <> GIT_STATUS_WT_NEW ->
               short_untracked_entry s tt = ret tt).
  { intros Hs. unfold short_untracked_entry. apply Z.eqb_neq in Hs.
    rewrite Hs. reflexivity. }
  split; [exact H1 |]. split; [exact H2 |].
  destruct (Z.eq_dec (status s) GIT_STATUS_WT_NEW) as [E | E].
  - left. rewrite (H1 E). reflexivity.
  - right. rewrite (H2 E). reflexivity.
Qed.


(** *** The list of untracked files *)

Lemma map_some_cons (x : option string) (xs : list (option string))
  (paths : list string) :
  x :: xs = List.map Some paths ->
  exists p rest, paths = p :: rest /\ x = Some p /\ xs = List.map Some rest.
Proof.
  destruct paths as [| p rest]; cbn; [discriminate |].
  intros [= -> ->]. exists p, rest. auto.
Qed.

Lemma long_untracked_entry_line (s : git_status_entry) (header : bool)
  (p : string) :
  (status s =? GIT_STATUS_WT_NEW) = true ->
  old_path_of s = Some p ->
  long_untracked_entry s header
  = ((if header then "" else untracked_header) ++ long_untracked_line p,
     Ret true).
Proof.
  unfold long_untracked_entry, old_path_of. intros ->.
  destruct (index_to_workdir s) as [delta |]; [| discriminate].
  intros Hp. destruct header; cbn; rewrite Hp; cbn;
    rewrite ?append_nil_r; reflexivity.
Qed.

Lemma short_untracked_entry_line (s : git_status_entry) (p : string) :
  (status s =? GIT_STATUS_WT_NEW) = true ->
  old_path_of s = Some p ->
  short_untracked_entry s tt = (short_untracked_line p, Ret tt).
Proof.
  unfold short_untracked_entry, old_path_of. intros ->.
  destruct (index_to_workdir s) as [delta |]; [| discriminate].
  intros Hp. cbn. rewrite Hp. cbn. rewrite ?append_nil_r. reflexivity.
Qed.

Lemma long_untracked_loop (l : git_status_list) :
  forall paths header,
    List.map old_path_of (untracked_entries l) = List.map Some paths ->
    for_each long_untracked_entry l header
    = ((if header then "" else
          match paths with [] => "" | _ :: _ => untracked_header end)
       ++ lines long_untracked_line paths,
       Ret (header || match paths with [] => false | _ :: _ => true end)).
Proof.
  induction l as [| s l IH]; intros paths header; cbn [for_each].
  - destruct paths; [| discriminate]. intros _.
    destruct header; reflexivity.
  - unfold untracked_entries. cbn [List.filter].
    destruct (status s =? GIT_STATUS_WT_NEW) eqn:Hs.
    + cbn [List.map]. intros H. apply map_some_cons in H.
      destruct H as [p [rest [-> [Hp Hrest]]]].
      rewrite (long_untracked_entry_line s header p Hs Hp), bind_run.
      rewrite (IH rest true Hrest). cbn [stdout outcome fst snd orb].
      rewrite orb_true_r, append_assoc. reflexivity.
    + intros H. unfold long_untracked_entry. rewrite Hs, bind_ret_l.
      apply IH, H.
Qed.

Lemma short_untracked_loop (l : git_status_list) :
  forall paths,
    List.map old_path_of (untracked_entries l) = List.map Some paths ->
    for_each short_untracked_entry l tt
    = (lines short_untracked_line paths, Ret tt).
Proof.
  induction l as [| s l IH]; intros paths; cbn [for_each].
  - destruct paths; [| discriminate]. reflexivity.
  - unfold untracked_entries. cbn [List.filter].
    destruct (status s =? GIT_STATUS_WT_NEW) eqn:Hs.
    + cbn [List.map]. intros H. apply map_some_cons in H.
      destruct H as [p [rest [-> [Hp Hrest]]]].
      rewrite (short_untracked_entry_line s p Hs Hp), bind_run.
      rewrite (IH rest Hrest). reflexivity.
    + intros H. unfold short_untracked_entry. rewrite Hs, bind_ret_l.
      apply IH, H.
Qed.

(** X12. Both formats list the same untracked files in the same order:
    when each entry whose status is WtNew alone carries a worktree delta
    with an old path, the second pass of the short renderer writes one
    [?? path] line for each of them, in the order of the list, and the
    third pass of the long renderer writes its header once, if there is
    such an entry at all, and then one line for each of the same paths. *)
Theorem untracked_listing (l : git_status_list) (paths : list string) :
  List.map old_path_of (untracked_entries l) = List.map Some paths ->
  for_each short_untracked_entry l tt
  = (lines short_untracked_line paths, Ret tt) /\
  for_each long_untracked_entry l false
  = ((match paths with [] => "" | _ :: _ => untracked_header end)
     ++ lines long_untracked_line paths,
     Ret (match paths with [] => false | _ :: _ => true end)).
Proof.
  intros H. split.
  - apply short_untracked_loop, H.
  - apply (long_untracked_loop l paths false H).
Qed.

(** *** No fatal exit in the renderers *)

Lemma printf_fault (fmt : string) (args : list printf_arg) (f : fault) :
  outcome (printf fmt args) = Fault f -> bad_read f.
Proof.
  unfold printf. destruct (formatted fmt args); [discriminate |].
  intros [= <-]. right. reflexivity.
Qed.

Lemma deref_fault {A : Type} (p : option A) (f : fault) :
  outcome (deref p) = Fault f -> bad_read f.
Proof. destruct p; [discriminate |]. intros [= <-]. left. reflexivity. Qed.

Lemma print_change_fault (glyph : string) (delta : git_diff_delta) (f : fault) :
  outcome (print_change glyph delta) = Fault f -> bad_read f.
Proof.
  unfold print_change.
  match goal with
  | |- context [if ?c then _ else _] => destruct c
  end; apply printf_fault.
Qed.

(** Splits a fault of a computation into the faults of its steps. *)
Ltac fault_steps H :=
  lazymatch type of H with
  | outcome (bind _ _) = Fault _ =>
      apply outcome_bind_fault in H;
      let a := fresh "a" in
      destruct H as [H | [a [_ H]]]; fault_steps H
  | outcome (ret _) = Fault _ => discriminate H
  | outcome (printf _ _) = Fault _ => exact (printf_fault _ _ _ H)
  | outcome (deref _) = Fault _ => exact (deref_fault _ _ H)
  | outcome (print_change _ _) = Fault _ => exact (print_change_fault _ _ _ H)
  | outcome (if ?c then _ else _) = Fault _ => destruct c; fault_steps H
  | outcome (match ?x with _ => _ end) = Fault _ => destruct x; fault_steps H
  | _ => idtac
  end.

Lemma long_index_entry_fault (s : git_status_entry) (locals : bool * bool)
  (f : fault) :
  outcome (long_index_entry s locals) = Fault f -> bad_read f.
Proof.
  destruct locals as [header rm]. unfold long_index_entry. intros H.
  fault_steps H.
Qed.

Lemma long_workdir_entry_fault (rm : bool) (s : git_status_entry)
  (header : bool) (f : fault) :
  outcome (long_workdir_entry rm s header) = Fault f -> bad_read f.
Proof. unfold long_workdir_entry. intros H. fault_steps H. Qed.

Lemma long_untracked_entry_fault (s : git_status_entry) (header : bool)
  (f : fault) :
  outcome (long_untracked_entry s header) = Fault f -> bad_read f.
Proof. unfold long_untracked_entry. intros H. fault_steps H. Qed.

Lemma long_ignored_entry_fault (s : git_status_entry) (header : bool)
  (f : fault) :
  outcome (long_ignored_entry s header) = Fault f -> bad_read f.
Proof. unfold long_ignored_entry. intros H. fault_steps H. Qed.

Lemma short_entry_fault (repo : git_repository) (s : git_status_entry)
  (u : unit) (f : fault) :
  outcome (short_entry repo s u) = Fault f -> bad_read f.
Proof.
  unfold short_entry. intros H.
  destruct (status s =? GIT_STATUS_CURRENT); [discriminate H |].
  destruct (short_glyphs (status s)) as [x y].
  destruct (Ascii.eqb x "?" && Ascii.eqb y "?"); [discriminate H |].
  destruct (short_paths s) as [[a b] c].
  fault_steps H.
Qed.

Lemma short_untracked_entry_fault (s : git_status_entry) (u : unit)
  (f : fault) :
  outcome (short_untracked_entry s u) = Fault f -> bad_read f.
Proof. unfold short_untracked_entry. intros H. fault_steps H. Qed.

(** X13. Neither renderer ever ends the process by a fatal exit, whatever
    the list holds and whatever the submodule lookups answer: a renderer
    that does not run to its end stopped on a read through a NULL delta
    or on a NULL path handed to printf. *)
Theorem renderers_never_fatal (repo : git_repository) (l : git_status_list)
  (f : fault) :
  (outcome (print_long repo l) = Fault f -> bad_read f) /\
  (outcome (print_short repo l) = Fault f -> bad_read f).
Proof.
  split; intros H.
  - unfold print_long in H.
    apply outcome_bind_fault in H. destruct H as [H | [[c rm] [_ H]]].
    { unfold long_index_pass in H.
      apply outcome_bind_fault in H. destruct H as [H | [[h rm] [_ H]]].
      - apply for_each_fault in H. destruct H as [e [locals [_ H]]].
        exact (long_index_entry_fault _ _ _ H).
      - fault_steps H. }
    apply outcome_bind_fault in H. destruct H as [H | [w [_ H]]].
    { unfold long_workdir_pass in H.
      apply outcome_bind_fault in H. destruct H as [H | [h [_ H]]].
      - apply for_each_fault in H. destruct H as [e [locals [_ H]]].
        exact (long_workdir_entry_fault _ _ _ _ H).
      - fault_steps H. }
    apply outcome_bind_fault in H. destruct H as [H | [h3 [_ H]]].
    { apply for_each_fault in H. destruct H as [e [locals [_ H]]].
      exact (long_untracked_entry_fault _ _ _ H). }
    apply outcome_bind_fault in H. destruct H as [H | [h4 [_ H]]].
    { apply for_each_fault in H. destruct H as [e [locals [_ H]]].
      exact (long_ignored_entry_fault _ _ _ H). }
    fault_steps H.
  - unfold print_short in H.
    apply outcome_bind_fault in H. destruct H as [H | [u [_ H]]].
    + apply for_each_fault in H. destruct H as [e [locals [_ H]]].
      exact (short_entry_fault _ _ _ _ H).
    + apply for_each_fault in H. destruct H as [e [locals [_ H]]].
      exact (short_untracked_entry_fault _ _ _ H).
Qed.


(** *** The IncludeUntracked flag of the query *)

Lemma land_lnot_self (x m : Z) : Z.land (Z.land x (Z.lnot m)) m = 0.
Proof.
  apply Z.bits_inj'. intros n Hn.
  rewrite !Z.land_spec, Z.lnot_spec, Z.bits_0 by exact Hn.
  destruct (Z.testbit x n), (Z.testbit m n); reflexivity.
Qed.

Lemma land_lor_self (x m : Z) : Z.land (Z.lor x m) m = m.
Proof.
  apply Z.bits_inj'. intros n Hn.
  rewrite Z.land_spec, Z.lor_spec.
  destruct (Z.testbit x n), (Z.testbit m n); reflexivity.
Qed.

Lemma land_lor_self_more (x m r : Z) : Z.land (Z.lor x (Z.lor m r)) m = m.
Proof.
  apply Z.bits_inj'. intros n Hn.
  rewrite Z.land_spec, !Z.lor_spec.
  destruct (Z.testbit x n), (Z.testbit m n), (Z.testbit r n); reflexivity.
Qed.

Lemma land_lor_apart (x i m : Z) :
  Z.land i m = 0 -> Z.land (Z.lor x i) m = Z.land x m.
Proof.
  intros H. rewrite Z.land_lor_distr_l, H. apply Z.lor_0_r.
Qed.

Lemma parse_arg_untracked (a : string) (o o' : opts) :
  untracked_flag_apart ->
  no_nul a = true ->
  outcome (parse_arg a o) = Ret o' ->
  Z.land (flags (statusopt o')) GIT_STATUS_OPT_INCLUDE_UNTRACKED =
  match untracked_option a with
  | Some true => GIT_STATUS_OPT_INCLUDE_UNTRACKED
  | Some false => 0
  | None => Z.land (flags (statusopt o)) GIT_STATUS_OPT_INCLUDE_UNTRACKED
  end.
Proof.
  intros [_ [Hi He]] Ha. unfold untracked_option.
  destruct (non_option a) eqn:Hn.
  - rewrite (parse_arg_path a o Hn).
    rewrite !(non_option_not_dashed a _ Hn) by reflexivity. cbn [orb].
    destruct (npaths o <? MAX_PATHSPEC); [| discriminate].
    intros [= <-]. reflexivity.
  - unfold parse_arg. unfold non_option in Hn. rewrite Hn.
    rewrite !(streq_eqb a) by (exact Ha || reflexivity).
    destruct (String.eqb a "-s") eqn:E1;
      [apply String.eqb_eq in E1; subst a; intros [= <-]; reflexivity |].
    destruct (String.eqb a "--short") eqn:E2;
      [apply String.eqb_eq in E2; subst a; intros [= <-]; reflexivity |].
    cbn [orb].
    destruct (String.eqb a "--long") eqn:E3;
      [apply String.eqb_eq in E3; subst a; intros [= <-]; reflexivity |].
    destruct (String.eqb a "--porcelain") eqn:E4;
      [apply String.eqb_eq in E4; subst a; intros [= <-]; reflexivity |].
    destruct (String.eqb a "-b") eqn:E5;
      [apply String.eqb_eq in E5; subst a; intros [= <-]; reflexivity |].
    destruct (String.eqb a "--branch") eqn:E6;
      [apply String.eqb_eq in E6; subst a; intros [= <-]; reflexivity |].
    cbn [orb].
    destruct (String.eqb a "-z") eqn:E7.
    { apply String.eqb_eq in E7. subst a. cbn.
      destruct (format o =? FORMAT_DEFAULT); intros [= <-]; reflexivity. }
    destruct (String.eqb a "--ignored") eqn:E8.
    { apply String.eqb_eq in E8. subst a. intros [= <-]. cbn.
      apply land_lor_apart, Hi. }
    destruct (String.eqb a "-uno"), (String.eqb a "--untracked-files=no");
      cbn [orb]; try (intros [= <-]; cbn; apply land_lnot_self).
    destruct (String.eqb a "-unormal"),
      (String.eqb a "--untracked-files=normal");
      cbn [orb]; try (intros [= <-]; cbn; apply land_lor_self).
    destruct (String.eqb a "-uall"), (String.eqb a "--untracked-files=all");
      cbn [orb]; try (intros [= <-]; cbn; apply land_lor_self_more).
    destruct (String.eqb a "--ignore-submodules=all").
    { intros [= <-]. cbn. apply land_lor_apart, He. }
    destruct (strncmp a "--git-dir=" (strlen "--git-dir=") =? 0).
    { intros [= <-]. reflexivity. }
    discriminate.
Qed.

Lemma parse_loop_untracked (args : list string) :
  untracked_flag_apart ->
  c_strings args ->
  forall o o',
    outcome (for_each parse_arg args o) = Ret o' ->
    Z.land (flags (statusopt o')) GIT_STATUS_OPT_INCLUDE_UNTRACKED =
    match last_untracked_option args with
    | Some true => GIT_STATUS_OPT_INCLUDE_UNTRACKED
    | Some false => 0
    | None => Z.land (flags (statusopt o)) GIT_STATUS_OPT_INCLUDE_UNTRACKED
    end.
Proof.
  intros Hapart. induction 1 as [| a args Ha _ IH]; intros o o';
    cbn [for_each].
  - intros [= <-]. reflexivity.
  - intros H. apply outcome_bind_ret in H. destruct H as [o1 [H1 H]].
    apply (parse_arg_untracked a o o1 Hapart Ha) in H1. apply IH in H.
    cbn [last_untracked_option].
    destruct (last_untracked_option args) as [b |]; [exact H |].
    rewrite H, H1. destruct (untracked_option a) as [[|] |]; reflexivity.
Qed.

Lemma parse_opts_flags (o : opts) (argv : list string) (out : string)
  (o' : opts) :
  parse_opts o argv = (out, Ret o') ->
  exists o1,
    outcome (for_each parse_arg (List.tl argv) o) = Ret o1 /\
    flags (statusopt o') = flags (statusopt o1).
Proof.
  unfold parse_opts. intros H. apply outcome_eq in H.
  apply outcome_bind_ret in H. destruct H as [o1 [Hloop H]].
  exists o1. split; [exact Hloop |].
  cbn in H. injection H as <-.
  repeat match goal with
         | |- context [if ?c then _ else _] => destruct c
         end;
    reflexivity.
Qed.

(** X14. The query of an accepted command line asks for untracked files
    unless the last of its options on them is -uno or
    --untracked-files=no: the IncludeUntracked flag that main sets is
    cleared by these two, set again by -unormal, -uall and their long
    forms, and left alone by every other argument. *)
Theorem parse_opts_untracked (argv : list string) (out : string) (o : opts) :
  untracked_flag_apart ->
  c_strings (List.tl argv) ->
  parse_opts main_opts argv = (out, Ret o) ->
  test (flags (statusopt o)) GIT_STATUS_OPT_INCLUDE_UNTRACKED
  = untracked_wanted (List.tl argv).
Proof.
  intros Hapart Hc H. apply parse_opts_flags in H.
  destruct H as [o1 [Hloop Hflags]].
  apply (parse_loop_untracked _ Hapart Hc) in Hloop.
  unfold test, untracked_wanted. rewrite Hflags, Hloop.
  destruct Hapart as [Hu _]. apply Z.eqb_neq in Hu.
  destruct (last_untracked_option (List.tl argv)) as [[|] |].
  - rewrite Hu. reflexivity.
  - reflexivity.
  - cbn [main_opts statusopt set_statusopt flags set_flags].
    rewrite Z.lor_comm, land_lor_self, Hu. reflexivity.
Qed.

(** *** The first line of the long format *)

(** X15. In the long format the output begins with the branch line,
    whether or not -b was given: when the command line is accepted with
    the long format, the repository opens and is not bare, the status
    list is built and HEAD resolves (to a reference, or as Unborn or
    NotFound), what the run writes starts with [# On branch ]. *)
Theorem long_output_starts_with_branch (lib : libgit2) (argv : list string)
  (out : string) (o : opts) (repo : git_repository)
  (entries : git_status_list) (error : Z) (head : option git_reference) :
  parse_opts main_opts argv = (out, Ret o) ->
  format o = FORMAT_LONG ->
  git_repository_open_ext lib (repodir o) = (0, Some repo) ->
  git_repository_is_bare repo = false ->
  git_status_list_new repo (statusopt o) = (0, Some entries) ->
  git_repository_head repo = (error, head) ->
  (error = 0 /\ head <> None) \/ error = GIT_EUNBORNBRANCH \/
  error = GIT_ENOTFOUND ->
  exists rest, stdout (main lib argv) = "# On branch " ++ rest.
Proof.
  intros Hparse Hf Hopen Hbare Hnew Hhead Hres.
  pose proof (parse_opts_leaves_normal _ _ _ Hparse) as [_ [Hb _]].
  specialize (Hb Hf).
  rewrite main_run, Hparse. apply parse_opts_silent in Hparse. subst out.
  rewrite bind_pure, (run_built lib o repo entries Hopen Hbare Hnew).
  rewrite Hb, Hf. cbn [Z.eqb negb].
  assert (Hbanner : exists name,
            show_branch repo FORMAT_LONG
            = ("# On branch " ++ name ++ nl, Ret tt)).
  { unfold show_branch. rewrite Hhead.
    destruct Hres as [[-> Hsome] | Hres].
    - destruct head as [ref |]; [| contradiction].
      assert ((0 =? GIT_EUNBORNBRANCH) || (0 =? GIT_ENOTFOUND) = false) as ->.
      { apply orb_false_iff. rewrite !Z.eqb_neq.
        pose proof GIT_EUNBORNBRANCH_failure. pose proof GIT_ENOTFOUND_failure.
        split; congruence. }
      cbn [Z.eqb deref]. rewrite bind_ret_l.
      destruct (strncmp _ _ _ =? 0); eexists; reflexivity.
    - assert ((error =? GIT_EUNBORNBRANCH) || (error =? GIT_ENOTFOUND) = true)
        as ->.
      { apply orb_true_iff. rewrite !Z.eqb_eq. exact Hres. }
      eexists. reflexivity. }
  destruct Hbanner as [name ->]. rewrite bind_run.
  eexists. cbn [stdout fst]. rewrite !append_assoc. reflexivity.
Qed.


(** *** The command lines the parser accepts *)

Lemma parse_arg_named (a : string) (o : opts) :
  In a option_names \/ names_git_dir a ->
  exists o', parse_arg a o = ret o' /\
             pathspec o' = pathspec o /\ npaths o' = npaths o.
Proof.
  intros [Hin | [dir ->]].
  - unfold option_names in Hin. cbn [In] in Hin.
    repeat (destruct Hin as [<- | Hin];
            [unfold parse_arg; cbn;
             try destruct (format o =? FORMAT_DEFAULT);
             eexists; (split; [reflexivity | split; reflexivity]) |]).
    contradiction.
  - rewrite parse_arg_git_dir. eexists. split; [reflexivity |].
    split; reflexivity.
Qed.

Lemma paths_counted_push (o : opts) (a : string) :
  paths_counted o -> npaths o < MAX_PATHSPEC ->
  paths_counted (push_pathspec o a).
Proof.
  intros [Hn _] Hlt. unfold paths_counted. cbn.
  rewrite length_app, Nat2Z.inj_add. cbn. lia.
Qed.

(** The loop accepts every command line of supported arguments with no
    more paths than there is room for. *)
Lemma parse_loop_accepts (args : list string) :
  Forall supported args ->
  forall o,
    paths_counted o ->
    npaths o + Z.of_nat (List.length (List.filter non_option args))
    <= MAX_PATHSPEC ->
    exists o', for_each parse_arg args o = ("", Ret o').
Proof.
  induction 1 as [| a args Ha _ IH]; intros o Ho; cbn [for_each List.filter].
  - intros _. exists o. reflexivity.
  - destruct (non_option a) eqn:Hn.
    + cbn [List.length]. intros Hroom.
      rewrite (parse_arg_path a o Hn).
      destruct (Z.ltb_spec (npaths o) MAX_PATHSPEC) as [Hlt | Hge]; [| lia].
      rewrite bind_ret_l. apply IH.
      * apply paths_counted_push; assumption.
      * cbn [push_pathspec npaths]. lia.
    + intros Hroom.
      destruct Ha as [Ha | Ha]; [congruence |].
      destruct (parse_arg_named a o Ha) as [o1 [-> [Hp Hc]]].
      rewrite bind_ret_l. apply IH.
      * unfold paths_counted in *. rewrite Hp, Hc. exact Ho.
      * rewrite Hc. exact Hroom.
Qed.

Lemma parse_opts_accepts (argv : list string) :
  Forall supported (List.tl argv) ->
  (List.length (List.filter non_option (List.tl argv)) <= 8)%nat ->
  exists o, parse_opts main_opts argv = ("", Ret o).
Proof.
  intros Hs Hroom.
  destruct (parse_loop_accepts _ Hs main_opts main_opts_counted) as [o1 H1].
  { cbn [main_opts npaths set_statusopt]. unfold MAX_PATHSPEC. lia. }
  unfold parse_opts. rewrite H1, bind_pure. eexists. reflexivity.
Qed.

(** C8. The option parser accepts up to eight arguments that do not start
    with a dash: a command line of arguments it has a case for, with at
    most eight such paths, is accepted, and the paths are stored in the
    order of the command line, their number next to them. It never holds
    more than eight. A command line with more than eight ends in a fatal
    exit of the parser, on the diagnostic of one of its two misuse errors;
    and the ninth path, after arguments the parser has a case for, ends it
    on the diagnostic of the pathspec limit. *)
Theorem pathspec_limit (argv : list string) :
  (Forall supported (List.tl argv) ->
   (List.length (List.filter non_option (List.tl argv)) <= 8)%nat ->
   exists o,
     parse_opts main_opts argv = ("", Ret o) /\
     pathspec o = List.filter non_option (List.tl argv) /\
     npaths o = Z.of_nat (List.length (pathspec o))) /\
  (forall out o,
     parse_opts main_opts argv = (out, Ret o) ->
     pathspec o = List.filter non_option (List.tl argv) /\
     npaths o = Z.of_nat (List.length (pathspec o)) /\
     npaths o <= MAX_PATHSPEC) /\
  (MAX_PATHSPEC < Z.of_nat (List.length (List.filter non_option (List.tl argv))) ->
   exists message extra,
     parse_opts main_opts argv = ("", Fault (Fatal message extra)) /\
     cli_misuse message) /\
  (forall before a after,
     List.tl argv = (before ++ a :: after)%list ->
     Forall supported before ->
     List.length (List.filter non_option before) = 8%nat ->
     non_option a = true ->
     parse_opts main_opts argv
     = ("", Fault (Fatal "Example only supports a limited pathspec" None))) /\
  (forall before a after out o,
     List.tl argv = (before ++ a :: after)%list ->
     for_each parse_arg before main_opts = (out, Ret o) ->
     List.length (List.filter non_option before) = 8%nat ->
     non_option a = true ->
     parse_opts main_opts argv
     = ("", Fault (Fatal "Example only supports a limited pathspec" None))).
Proof.
  assert (Hstored : forall out o,
            parse_opts main_opts argv = (out, Ret o) ->
            pathspec o = List.filter non_option (List.tl argv) /\
            npaths o = Z.of_nat (List.length (pathspec o)) /\
            npaths o <= MAX_PATHSPEC).
  { intros out o. unfold parse_opts.
    destruct (for_each parse_arg (List.tl argv) main_opts)
      as [out1 [o1 | f]] eqn:Hloop; [| discriminate].
    apply parse_loop_ret in Hloop; [| exact main_opts_counted].
    destruct Hloop as [-> [[Hn Hle] Hp]]. cbn in Hp.
    rewrite bind_pure. intros [= <- <-].
    repeat (match goal with
            | |- context [if ?c then _ else _] => destruct c
            end; cbn);
      auto. }
  assert (Hninth : forall before a after out o,
            List.tl argv = (before ++ a :: after)%list ->
            for_each parse_arg before main_opts = (out, Ret o) ->
            List.length (List.filter non_option before) = 8%nat ->
            non_option a = true ->
            parse_opts main_opts argv
            = ("", Fault (Fatal "Example only supports a limited pathspec"
                            None))).
  { intros before a after out o Hargv Hbefore Hlen Ha.
    apply parse_opts_fault. rewrite Hargv, for_each_app.
    pose proof (parse_loop_ret before _ _ _ main_opts_counted Hbefore)
      as [-> [[Hn _] Hp]].
    rewrite Hbefore, bind_pure. cbn [for_each].
    rewrite (parse_arg_path a o Ha).
    assert (npaths o = 8) as ->.
    { rewrite Hn, Hp. cbn [main_opts pathspec set_statusopt app]. lia. }
    reflexivity. }
  split; [| split; [exact Hstored | split; [| split; [| exact Hninth]]]].
  - intros Hs Hroom.
    destruct (parse_opts_accepts argv Hs Hroom) as [o Ho].
    exists o. split; [exact Ho |].
    destruct (Hstored _ _ Ho) as [Hp [Hn _]]. auto.
  - intros Hgt.
    destruct (parse_loop_overflow (List.tl argv) main_opts main_opts_counted)
      as [message [extra [Hloop Hm]]].
    { cbn [main_opts npaths set_statusopt]. lia. }
    exists message, extra. split; [apply parse_opts_fault, Hloop | exact Hm].
  - intros before a after Hargv Hs Hlen Ha.
    destruct (parse_loop_accepts _ Hs main_opts main_opts_counted)
      as [o Hbefore].
    { cbn [main_opts npaths set_statusopt]. rewrite Hlen.
      unfold MAX_PATHSPEC. lia. }
    exact (Hninth before a after "" o Hargv Hbefore Hlen Ha).
Qed.


(** *** When the branch banner is written *)

Lemma parse_arg_showbranch (a : string) (o o' : opts) :
  no_nul a = true ->
  outcome (parse_arg a o) = Ret o' ->
  showbranch o' =
  if String.eqb a "-b" || String.eqb a "--branch" then 1 else showbranch o.
Proof.
  intros Ha.
  destruct (non_option a) eqn:Hn.
  - rewrite (parse_arg_path a o Hn).
    rewrite !(non_option_not_dashed a _ Hn) by reflexivity. cbn [orb].
    destruct (npaths o <? MAX_PATHSPEC); [| discriminate].
    intros [= <-]. reflexivity.
  - unfold parse_arg. unfold non_option in Hn. rewrite Hn.
    rewrite !(streq_eqb a) by (exact Ha || reflexivity).
    destruct (String.eqb a "-s") eqn:E1;
      [apply String.eqb_eq in E1; subst a; intros [= <-]; reflexivity |].
    destruct (String.eqb a "--short") eqn:E2;
      [apply String.eqb_eq in E2; subst a; intros [= <-]; reflexivity |].
    cbn [orb].
    destruct (String.eqb a "--long") eqn:E3;
      [apply String.eqb_eq in E3; subst a; intros [= <-]; reflexivity |].
    destruct (String.eqb a "--porcelain") eqn:E4;
      [apply String.eqb_eq in E4; subst a; intros [= <-]; reflexivity |].
    destruct (String.eqb a "-b"), (String.eqb a "--branch"); cbn [orb];
      try (intros [= <-]; reflexivity).
    unfold check_lg2, fatal.
    repeat match goal with
           | |- context [if ?c then _ else _] => destruct c
           end;
      cbn; intros [= <-]; reflexivity.
Qed.

Lemma parse_loop_showbranch (args : list string) :
  c_strings args ->
  forall o o',
    outcome (for_each parse_arg args o) = Ret o' ->
    showbranch o' = if branch_requested args then 1 else showbranch o.
Proof.
  induction 1 as [| a args Ha _ IH]; intros o o'; cbn [for_each].
  - intros [= <-]. reflexivity.
  - intros H. apply outcome_bind_ret in H. destruct H as [o1 [H1 H]].
    apply (parse_arg_showbranch a o o1 Ha) in H1. apply IH in H.
    unfold branch_requested in *. cbn [List.existsb].
    rewrite H, H1.
    destruct (String.eqb a "-b" || String.eqb a "--branch"),
      (List.existsb _ args); reflexivity.
Qed.

(** The branch flag that leaves parse_opts: set for the long format and
    on request, clear otherwise. *)
Lemma parse_opts_showbranch (argv : list string) (out : string) (o : opts) :
  c_strings (List.tl argv) ->
  parse_opts main_opts argv = (out, Ret o) ->
  showbranch o =
  if (format o =? FORMAT_LONG) || branch_requested (List.tl argv)
  then 1 else 0.
Proof.
  intros Hc. unfold parse_opts.
  destruct (for_each parse_arg (List.tl argv) main_opts)
    as [out1 [o1 | f]] eqn:Hloop; [| discriminate].
  apply outcome_eq in Hloop. apply (parse_loop_showbranch _ Hc) in Hloop.
  cbn [main_opts showbranch set_statusopt] in Hloop.
  rewrite bind_run. cbn [outcome snd stdout fst ret]. intros [= _ <-].
  cbv zeta.
  assert (Hkeep : forall (p : opts) (q : git_status_options),
            showbranch (if 0 <? npaths p then set_statusopt p q else p)
            = showbranch p /\
            format (if 0 <? npaths p then set_statusopt p q else p)
            = format p).
  { intros p q. destruct (0 <? npaths p); split; reflexivity. }
  rewrite (proj1 (Hkeep _ _)), (proj2 (Hkeep _ _)).
  assert (Hbanner : forall p : opts,
            showbranch (if format p =? FORMAT_LONG
                        then set_showbranch p 1 else p)
            = (if format p =? FORMAT_LONG then 1 else showbranch p) /\
            format (if format p =? FORMAT_LONG then set_showbranch p 1 else p)
            = format p).
  { intros p. destruct (format p =? FORMAT_LONG); split; reflexivity. }
  rewrite (proj1 (Hbanner _)), (proj2 (Hbanner _)).
  assert (Hdefault : showbranch
                       (if format o1 =? FORMAT_DEFAULT
                        then set_format o1 FORMAT_LONG else o1)
                     = showbranch o1).
  { destruct (format o1 =? FORMAT_DEFAULT); reflexivity. }
  rewrite Hdefault, Hloop.
  destruct (format _ =? FORMAT_LONG); [reflexivity |].
  destruct (branch_requested (List.tl argv)); reflexivity.
Qed.

(** C1, amended. On a clean repository whose HEAD is the branch main, a
    run whose command line is accepted writes the branch banner exactly
    when the format is long or the banner is asked for by -b or --branch:
    [# On branch main] in the long format, [## main] in the short and
    porcelain formats with -b or --branch, and nothing at all in these two
    without. So [status -s] writes nothing. *)
Theorem short_banner_on_request (lib : libgit2) (repo : git_repository)
  (argv : list string) (out : string) (o : opts) :
  c_strings (List.tl argv) ->
  parse_opts main_opts argv = (out, Ret o) ->
  git_repository_open_ext lib (repodir o) = (0, Some repo) ->
  git_repository_is_bare repo = false ->
  git_repository_head repo
  = (0, Some {| git_reference_name := "refs/heads/main" |}) ->
  (forall query, exists entries,
     git_status_list_new repo query = (0, Some entries) /\ clean entries) ->
  main lib argv = (clean_main_output (List.tl argv), Ret 0).
Proof.
  intros Hc Hparse Hopen Hbare Hhead Hclean.
  pose proof (parse_opts_showbranch _ _ _ Hc Hparse) as Hb.
  pose proof (parse_opts_chooses_format _ _ _ Hc Hparse) as Hf.
  destruct (Hclean (statusopt o)) as [entries [Hnew Hcl]].
  rewrite main_run, Hparse. apply parse_opts_silent in Hparse. subst out.
  rewrite bind_pure, (run_built lib o repo entries Hopen Hbare Hnew).
  rewrite (print_long_clean repo entries Hcl),
    (print_short_clean repo entries Hcl).
  rewrite Hb, (show_branch_main repo _ Hhead).
  unfold clean_main_output. rewrite <- Hf.
  destruct (format o =? FORMAT_LONG); [reflexivity |].
  cbn [orb].
  destruct (branch_requested (List.tl argv)); reflexivity.
Qed.


(** *** A command line that is refused *)

Lemma parse_arg_refusal (a : string) (o : opts) (out : string) (f : fault) :
  parse_arg a o = (out, Fault f) -> out = "" /\ refusal f.
Proof.
  destruct (non_option a) eqn:Hn.
  - rewrite (parse_arg_path a o Hn).
    destruct (npaths o <? MAX_PATHSPEC); [discriminate |].
    intros [= <- <-]. split; [reflexivity |].
    eexists _, _. split; [reflexivity | left; reflexivity].
  - destruct (parse_arg_option a o Hn) as [[o' [-> _]] | ->];
      [discriminate |].
    intros [= <- <-]. split; [reflexivity |].
    eexists _, _. split; [reflexivity | right; reflexivity].
Qed.

Lemma parse_loop_refusal (args : list string) :
  forall o out f,
    for_each parse_arg args o = (out, Fault f) -> out = "" /\ refusal f.
Proof.
  induction args as [| a args IH]; intros o out f; cbn [for_each].
  - discriminate.
  - destruct (parse_arg a o) as [out1 [o1 | f1]] eqn:Ha.
    + apply parse_arg_effect in Ha. destruct Ha as [-> _].
      rewrite bind_pure. apply IH.
    + apply parse_arg_refusal in Ha. destruct Ha as [-> Hf].
      intros [= <- <-]. auto.
Qed.

Lemma parse_opts_refusal (argv : list string) (out : string) (f : fault) :
  parse_opts main_opts argv = (out, Fault f) -> out = "" /\ refusal f.
Proof.
  unfold parse_opts.
  destruct (for_each parse_arg (List.tl argv) main_opts)
    as [out1 [o1 | f1]] eqn:Hloop.
  - rewrite bind_run. cbn. discriminate.
  - apply parse_loop_refusal in Hloop. destruct Hloop as [-> Hf].
    intros [= <- <-]. auto.
Qed.

(** X5. The run ends before anything is written, on a fatal exit with the
    diagnostic of what failed: a command line that is refused (the parser
    has written nothing and ends on a fatal exit with one of its two
    diagnostics of misuse, and the run ends on that same exit, whatever
    the library would answer), a repository that cannot be opened (the
    directory is named), a bare repository (its path is named), a status
    list that cannot be built. *)
Theorem main_fatal_ends (lib : libgit2) (argv : list string) :
  (forall out f,
     parse_opts main_opts argv = (out, Fault f) ->
     out = "" /\ refusal f /\ main lib argv = ("", Fault f)) /\
  (forall out o,
     parse_opts main_opts argv = (out, Ret o) ->
     (forall error repo,
        git_repository_open_ext lib (repodir o) = (error, repo) ->
        error <> 0 ->
        main lib argv
        = ("", Fault (Fatal "Could not open repository" (Some (repodir o))))) /\
     (forall repo,
        git_repository_open_ext lib (repodir o) = (0, Some repo) ->
        git_repository_is_bare repo = true ->
        main lib argv
        = ("", Fault (Fatal "Cannot report status on bare repository"
                        (Some (git_repository_path repo))))) /\
     (forall repo error entries,
        git_repository_open_ext lib (repodir o) = (0, Some repo) ->
        git_repository_is_bare repo = false ->
        git_status_list_new repo (statusopt o) = (error, entries) ->
        error <> 0 ->
        main lib argv = ("", Fault (Fatal "Could not get status" None)))).
Proof.
  rewrite main_run. split.
  - intros out f Hparse. rewrite Hparse.
    apply parse_opts_refusal in Hparse. destruct Hparse as [-> Hf].
    split; [reflexivity | split; [exact Hf | reflexivity]].
  - intros out o Hparse. rewrite Hparse.
    apply parse_opts_silent in Hparse. subst out. rewrite bind_pure.
    unfold run, check_lg2, fatal. split; [| split].
    + intros error repo -> Herr. apply Z.eqb_neq in Herr. rewrite Herr.
      reflexivity.
    + intros repo -> Hbare. cbn [Z.eqb deref]. rewrite !bind_ret_l, Hbare.
      reflexivity.
    + intros repo error entries -> Hbare Hnew Herr.
      cbn [Z.eqb deref]. rewrite !bind_ret_l, Hbare, bind_ret_l, Hnew.
      apply Z.eqb_neq in Herr. rewrite Herr. reflexivity.
Qed.


(** *** An entry in the run of a whole renderer *)

(** An entry that the main pass of the short renderer prints as [line]
    and that its second pass skips: the run on a list that holds it is the
    run on the list without it, with [line] written at the entry's place
    in the main pass. *)
Lemma print_short_insert (repo : git_repository) (s : git_status_entry)
  (line : string) (l1 l2 : git_status_list) (out1 : string) :
  short_entry repo s tt = (line, Ret tt) ->
  short_untracked_entry s tt = ret tt ->
  for_each (short_entry repo) l1 tt = (out1, Ret tt) ->
  exists rest r,
    print_short repo (l1 ++ s :: l2)%list = (out1 ++ line ++ rest, r) /\
    print_short repo (l1 ++ l2)%list = (out1 ++ rest, r).
Proof.
  intros Hline Hskip H1. unfold print_short.
  assert (Hu : forall u, short_untracked_entry s u = ret u)
    by (intros []; exact Hskip).
  rewrite (for_each_skip short_untracked_entry s l1 l2 Hu).
  remember (for_each short_untracked_entry (l1 ++ l2)%list tt) as second.
  rewrite !for_each_app, H1, !bind_run. cbn [for_each].
  rewrite Hline, bind_run.
  destruct (for_each (short_entry repo) l2 tt) as [out2 [[] | f]];
    cbn [stdout outcome fst snd].
  - rewrite !bind_run.
    exists (out2 ++ stdout second), (outcome second).
    rewrite !append_assoc. split; reflexivity.
  - exists out2, (Fault f). cbn. split; reflexivity.
Qed.

Lemma print_long_first_three (repo : git_repository) (l : git_status_list) :
  print_long repo l =
  bind (long_first_three l)
    (fun flags =>
       for_each long_ignored_entry l false ;;
       if negb (fst flags) && snd flags
       then printf ("no changes added to commit (use " ++ dq ++ "git add"
                    ++ dq ++ " and/or " ++ dq ++ "git commit -a" ++ dq
                    ++ ")" ++ nl) []
       else ret tt).
Proof.
  unfold print_long, long_first_three.
  rewrite bind_assoc. apply bind_ext. intros [c rm].
  rewrite bind_assoc. apply bind_ext. intros w.
  rewrite bind_assoc. apply bind_ext. intros h3.
  rewrite bind_ret_l. reflexivity.
Qed.

Lemma long_first_three_skip (l1 l2 : git_status_list) (e : git_status_entry) :
  (forall locals, long_index_entry e locals = ret locals) ->
  (forall rm header, long_workdir_entry rm e header = ret header) ->
  (forall header, long_untracked_entry e header = ret header) ->
  long_first_three (l1 ++ e :: l2)%list = long_first_three (l1 ++ l2)%list.
Proof.
  intros H1 H2 H3. unfold long_first_three, long_index_pass, long_workdir_pass.
  rewrite (for_each_skip long_index_entry e) by exact H1.
  apply bind_ext. intros [changes_in_index rm].
  rewrite (for_each_skip (long_workdir_entry rm) e) by apply H2.
  apply bind_ext. intros changed_in_workdir.
  rewrite (for_each_skip long_untracked_entry e) by exact H3.
  reflexivity.
Qed.

Lemma long_ignored_entry_line (s : git_status_entry) (header : bool)
  (p : string) :
  status s = GIT_STATUS_IGNORED ->
  old_path_of s = Some p ->
  long_ignored_entry s header
  = ((if header then "" else ignored_header) ++ long_untracked_line p,
     Ret true).
Proof.
  unfold long_ignored_entry, old_path_of. intros ->. rewrite Z.eqb_refl.
  destruct (index_to_workdir s) as [delta |]; [| discriminate].
  intros Hp. destruct header; cbn; rewrite Hp; cbn;
    rewrite ?append_nil_r; reflexivity.
Qed.

(** An entry that the first three passes of the long renderer skip and
    that the fourth prints: its line comes in the fourth pass, after what
    that pass writes for the entries before it, under the header of the
    section if none of these was listed. *)
Lemma print_long_ignored_insert (repo : git_repository) (s : git_status_entry)
  (p : string) (l1 l2 : git_status_list) (pre out4 : string)
  (flags : bool * bool) (header : bool) :
  (forall locals, long_index_entry s locals = ret locals) ->
  (forall rm h, long_workdir_entry rm s h = ret h) ->
  (forall h, long_untracked_entry s h = ret h) ->
  status s = GIT_STATUS_IGNORED ->
  old_path_of s = Some p ->
  long_first_three (l1 ++ l2)%list = (pre, Ret flags) ->
  for_each long_ignored_entry l1 false = (out4, Ret header) ->
  exists rest r,
    print_long repo (l1 ++ s :: l2)%list
    = (pre ++ out4 ++ (if header then "" else ignored_header)
       ++ long_untracked_line p ++ rest, r).
Proof.
  intros H1 H2 H3 Hs Hp Hpre H4.
  rewrite print_long_first_three, (long_first_three_skip l1 l2 s H1 H2 H3).
  rewrite Hpre, bind_run. cbv beta.
  rewrite for_each_app, H4, bind_run. cbn [for_each].
  rewrite (long_ignored_entry_line s header p Hs Hp), bind_run.
  cbn [stdout outcome fst snd].
  destruct (for_each long_ignored_entry l2 true) as [out5 [h5 | f]];
    cbn [stdout outcome fst snd].
  - rewrite bind_run. cbn [stdout outcome fst snd].
    match goal with
    | |- context [stdout ?m] =>
        exists (out5 ++ stdout m), (outcome m)
    end.
    rewrite !append_assoc. reflexivity.
  - exists out5, (Fault f). cbn [bind stdout outcome fst snd].
    rewrite !append_assoc. reflexivity.
Qed.


(** The same with the rest of the run given: the whole output. *)
Lemma print_long_ignored_exact (repo : git_repository) (s : git_status_entry)
  (p : string) (l1 l2 : git_status_list) (pre out4 out5 : string)
  (flags : bool * bool) (header last : bool) :
  (forall locals, long_index_entry s locals = ret locals) ->
  (forall rm h, long_workdir_entry rm s h = ret h) ->
  (forall h, long_untracked_entry s h = ret h) ->
  status s = GIT_STATUS_IGNORED ->
  old_path_of s = Some p ->
  long_first_three (l1 ++ l2)%list = (pre, Ret flags) ->
  for_each long_ignored_entry l1 false = (out4, Ret header) ->
  for_each long_ignored_entry l2 true = (out5, Ret last) ->
  print_long repo (l1 ++ s :: l2)%list
  = (pre ++ out4 ++ (if header then "" else ignored_header)
     ++ long_untracked_line p ++ out5
     ++ (if negb (fst flags) && snd flags then long_trailer else ""),
     Ret tt).
Proof.
  intros H1 H2 H3 Hs Hp Hpre H4 H5.
  rewrite print_long_first_three, (long_first_three_skip l1 l2 s H1 H2 H3).
  rewrite Hpre, bind_run. cbv beta.
  rewrite for_each_app, H4, bind_run. cbn [for_each].
  rewrite (long_ignored_entry_line s header p Hs Hp), bind_run.
  rewrite H5. cbn [stdout outcome fst snd]. rewrite bind_run.
  cbn [stdout outcome fst snd]. rewrite !append_assoc.
  destruct (negb (fst flags) && snd flags); reflexivity.
Qed.

Lemma ignored_not_wt_new (st : Z) :
  has st Ignored = true -> (st =? GIT_STATUS_WT_NEW) = false.
Proof.
  intros H. destruct (st =? GIT_STATUS_WT_NEW) eqn:E; [| reflexivity].
  apply Z.eqb_eq in E. subst st.
  change GIT_STATUS_WT_NEW with (flag_mask WtNew) in H.
  rewrite (has_other_flag WtNew Ignored) in H by discriminate.
  discriminate.
Qed.

(** *** An entry that is only conflicted *)

(** C10. An entry whose only flag is Conflicted: the short renderer gives
    it the code of two spaces, no rule having read that flag, and prints
    the line of that code with the entry's path (and the submodule note).
    This is so in a run of the whole short renderer: on a list that holds
    the entry, once the main pass has gone through the entries before it,
    the output is that of the list without the entry with this line
    written at the entry's place in the main pass; the second pass prints
    nothing for it. The long renderer does nothing for it in any of its
    four passes, so that its run is that of the list without the entry. *)
Theorem conflicted_only_entry (repo : git_repository) (s : git_status_entry)
  (p : string) :
  status s = GIT_STATUS_CONFLICTED ->
  fst (fst (short_paths s)) = Some p ->
  short_glyphs (status s) = (" "%char, " "%char) /\
  short_entry repo s tt
    = (short_line " " " " [p] (short_extra repo s), Ret tt) /\
  (forall l1 l2 out1,
     for_each (short_entry repo) l1 tt = (out1, Ret tt) ->
     exists rest r,
       print_short repo (l1 ++ s :: l2)%list
       = (out1 ++ short_line " " " " [p] (short_extra repo s) ++ rest, r) /\
       print_short repo (l1 ++ l2)%list = (out1 ++ rest, r)) /\
  short_untracked_entry s tt = ret tt /\
  (forall locals, long_index_entry s locals = ret locals) /\
  (forall rm header, long_workdir_entry rm s header = ret header) /\
  (forall header, long_untracked_entry s header = ret header) /\
  (forall header, long_ignored_entry s header = ret header) /\
  (forall l1 l2,
     print_long repo (l1 ++ s :: l2)%list = print_long repo (l1 ++ l2)%list).
Proof.
  intros Hs Hp.
  destruct conflicted_glyphs as [Hi [Hw Hg]].
  assert (Hcur : (status s =? GIT_STATUS_CURRENT) = false).
  { rewrite Hs. apply flag_mask_not_current. }
  assert (Hnew : (status s =? GIT_STATUS_WT_NEW) = false).
  { rewrite Hs. apply (flag_mask_neqb Conflicted WtNew). discriminate. }
  assert (Hign : (status s =? GIT_STATUS_IGNORED) = false).
  { rewrite Hs. apply (flag_mask_neqb Conflicted Ignored). discriminate. }
  assert (Hdel : test (status s) GIT_STATUS_WT_DELETED = false).
  { rewrite Hs. apply (has_other_flag Conflicted WtDeleted). discriminate. }
  assert (L1 : forall locals, long_index_entry s locals = ret locals).
  { intros [header rm]. unfold long_index_entry.
    rewrite Hcur, Hdel, Hs, Hi. reflexivity. }
  assert (L2 : forall rm header, long_workdir_entry rm s header = ret header).
  { intros rm header. unfold long_workdir_entry. rewrite Hcur, Hs, Hw.
    destruct (index_to_workdir s); reflexivity. }
  assert (L3 : forall header, long_untracked_entry s header = ret header).
  { intros header. unfold long_untracked_entry. rewrite Hnew. reflexivity. }
  assert (L4 : forall header, long_ignored_entry s header = ret header).
  { intros header. unfold long_ignored_entry. rewrite Hign. reflexivity. }
  assert (S1 : short_entry repo s tt
               = (short_line " " " " [p] (short_extra repo s), Ret tt)).
  { unfold short_entry. rewrite Hcur, Hs, Hg. cbn.
    destruct (short_paths s) as [[a b] c]. cbn in Hp. subst a. reflexivity. }
  assert (S2 : short_untracked_entry s tt = ret tt).
  { unfold short_untracked_entry. rewrite Hnew. reflexivity. }
  split; [rewrite Hs; exact Hg |].
  split; [exact S1 |].
  split.
  { intros l1 l2 out1 H1. apply print_short_insert; assumption. }
  split; [exact S2 |].
  repeat (split; [assumption |]).
  intros l1 l2. apply print_long_skip; assumption.
Qed.

(** *** An ignored entry *)

(** X10. An entry with the Ignored flag always gets the code [!!] in the
    short format, whatever its other flags; with its path a at hand, the
    main pass of a run of the whole short renderer writes its line at the
    entry's place, and the rest of the output is that of the list without
    the entry. An entry whose status is Ignored alone is listed by the
    long renderer in its fourth pass only: the first three passes run as
    on the list without it, and in a run of the whole long renderer its
    line comes after what the fourth pass writes for the entries before
    it, under the header of the section if none of these was listed; the
    second pass of the short renderer does nothing on it. *)
Theorem ignored_entry (repo : git_repository) (s : git_status_entry) :
  (has (status s) Ignored = true ->
   short_glyphs (status s) = ("!"%char, "!"%char) /\
   forall p,
     fst (fst (short_paths s)) = Some p ->
     short_entry repo s tt
     = (short_line "!" "!" [p] (short_extra repo s), Ret tt) /\
     forall l1 l2 out1,
       for_each (short_entry repo) l1 tt = (out1, Ret tt) ->
       exists rest r,
         print_short repo (l1 ++ s :: l2)%list
         = (out1 ++ short_line "!" "!" [p] (short_extra repo s) ++ rest, r) /\
         print_short repo (l1 ++ l2)%list = (out1 ++ rest, r)) /\
  (status s = GIT_STATUS_IGNORED ->
   (forall locals, long_index_entry s locals = ret locals) /\
   (forall rm header, long_workdir_entry rm s header = ret header) /\
   (forall header, long_untracked_entry s header = ret header) /\
   short_untracked_entry s tt = ret tt /\
   (forall l1 l2,
      long_first_three (l1 ++ s :: l2)%list
      = long_first_three (l1 ++ l2)%list) /\
   forall p,
     old_path_of s = Some p ->
     (forall header,
        long_ignored_entry s header
        = ((if header then "" else ignored_header) ++ long_untracked_line p,
           Ret true)) /\
     (forall l1 l2 pre flags out4 header,
        long_first_three (l1 ++ l2)%list = (pre, Ret flags) ->
        for_each long_ignored_entry l1 false = (out4, Ret header) ->
        exists rest r,
          print_long repo (l1 ++ s :: l2)%list
          = (pre ++ out4 ++ (if header then "" else ignored_header)
             ++ long_untracked_line p ++ rest, r)) /\
     (forall l1 l2 pre flags out4 header out5 last,
        long_first_three (l1 ++ l2)%list = (pre, Ret flags) ->
        for_each long_ignored_entry l1 false = (out4, Ret header) ->
        for_each long_ignored_entry l2 true = (out5, Ret last) ->
        print_long repo (l1 ++ s :: l2)%list
        = (pre ++ out4 ++ (if header then "" else ignored_header)
           ++ long_untracked_line p ++ out5
           ++ (if negb (fst flags) && snd flags then long_trailer else ""),
           Ret tt))).
Proof.
  split.
  - intros Hign. pose proof (short_glyphs_ignored _ Hign) as Hg.
    split; [exact Hg |]. intros p Hp.
    assert (S1 : short_entry repo s tt
                 = (short_line "!" "!" [p] (short_extra repo s), Ret tt)).
    { unfold short_entry. rewrite (has_not_current _ _ Hign), Hg. cbn.
      destruct (short_paths s) as [[a b] c]. cbn in Hp. subst a.
      reflexivity. }
    split; [exact S1 |].
    intros l1 l2 out1 H1. apply print_short_insert; [exact S1 | | exact H1].
    unfold short_untracked_entry. rewrite (ignored_not_wt_new _ Hign).
    reflexivity.
  - intros Hs. pose proof Hs as Hs'.
    change GIT_STATUS_IGNORED with (flag_mask Ignored) in Hs.
    destruct (only_flag_glyphs Ignored) as [Hi Hw];
      [cbn; intuition discriminate | cbn; intuition discriminate |].
    assert (Hcur : (status s =? GIT_STATUS_CURRENT) = false)
      by (rewrite Hs; apply flag_mask_not_current).
    assert (Hnew : (status s =? GIT_STATUS_WT_NEW) = false).
    { rewrite Hs. apply (flag_mask_neqb Ignored WtNew). discriminate. }
    assert (Hdel : test (status s) GIT_STATUS_WT_DELETED = false).
    { rewrite Hs. apply (has_other_flag Ignored WtDeleted). discriminate. }
    assert (L1 : forall locals, long_index_entry s locals = ret locals).
    { intros [header rm]. unfold long_index_entry.
      rewrite Hcur, Hdel, Hs, Hi. reflexivity. }
    assert (L2 : forall rm header,
               long_workdir_entry rm s header = ret header).
    { intros rm header. unfold long_workdir_entry. rewrite Hcur, Hs, Hw.
      destruct (index_to_workdir s); reflexivity. }
    assert (L3 : forall header, long_untracked_entry s header = ret header).
    { intros header. unfold long_untracked_entry. rewrite Hnew.
      reflexivity. }
    split; [exact L1 |]. split; [exact L2 |]. split; [exact L3 |].
    split; [unfold short_untracked_entry; rewrite Hnew; reflexivity |].
    split; [intros l1 l2; apply long_first_three_skip; assumption |].
    intros p Hp.
    split; [intros header; apply long_ignored_entry_line; assumption |].
    split.
    + intros l1 l2 pre flags out4 header Hpre H4.
      apply (print_long_ignored_insert repo s p l1 l2 pre out4 flags header);
        assumption.
    + intros l1 l2 pre flags out4 header out5 last Hpre H4 H5.
      apply (print_long_ignored_exact repo s p l1 l2 pre out4 out5 flags
               header last); assumption.
Qed.

End Facts.

(** ** Concrete runs *)

(** C1: what [status -s] writes on a clean repository on main is not the
    banner. *)
Lemma short_run_without_banner :
  stdout (main (library_at clean_on_main) ["status"; "-s"]) = "" /\
  stdout (main (library_at clean_on_main) ["status"; "-s"]) <> "## main" ++ nl.
Proof. split; [reflexivity | discriminate]. Qed.

(** C2: the status list is built, HEAD cannot be resolved, and the run in
    the long format exits 1. *)
Lemma status_list_built_exit_nonzero :
  exists o entries,
    outcome (parse_opts main_opts ["status"]) = Ret o /\
    git_repository_open_ext (library_at head_unreadable) (repodir o)
    = (0, Some head_unreadable) /\
    git_status_list_new head_unreadable (statusopt o) = (0, Some entries) /\
    exit_status (outcome (main (library_at head_unreadable) ["status"]))
    = Some 1 /\
    exit_status (outcome (main (library_at head_unreadable) ["status"]))
    <> Some 0.
Proof.
  eexists _, _. split; [reflexivity |]. split; [reflexivity |].
  split; [reflexivity |]. split; [reflexivity | discriminate].
Qed.

Lemma exit_zero_needs_status_list_run :
  exit_status (outcome (main (library_at clean_on_main) ["status"; "-s"]))
  = Some 0 /\
  exists o repo entries,
    outcome (parse_opts main_opts ["status"; "-s"]) = Ret o /\
    git_repository_open_ext (library_at clean_on_main) (repodir o)
    = (0, Some repo) /\
    git_status_list_new repo (statusopt o) = (0, Some entries).
Proof.
  split; [reflexivity |].
  apply (proj1 (exit_zero_needs_status_list (library_at clean_on_main)
                  ["status"; "-s"])).
  reflexivity.
Defined.

(** C3: with IndexModified, IndexRenamed and Ignored the first character
    of the short code is not the R of the priority order. *)
Lemma ignored_overrides_index_glyph :
  (2 <= index_flags_set modified_renamed_ignored)%nat /\
  index_winner modified_renamed_ignored = Some IndexRenamed /\
  fst (short_glyphs modified_renamed_ignored) = "!"%char /\
  fst (short_glyphs modified_renamed_ignored) <> "R"%char.
Proof.
  split; [vm_compute; apply le_n |]. split; [reflexivity |].
  split; [reflexivity | discriminate].
Qed.

Lemma index_glyph_by_priority_run :
  (2 <= index_flags_set modified_and_renamed)%nat /\
  exists f,
    index_winner modified_and_renamed = Some f /\ In f index_flags /\
    long_istatus modified_and_renamed = long_index_glyph f /\
    (has modified_and_renamed Ignored = false ->
     fst (short_glyphs modified_and_renamed) = short_index_glyph f) /\
    (has modified_and_renamed Ignored = true ->
     fst (short_glyphs modified_and_renamed) = "!"%char).
Proof.
  split; [vm_compute; apply le_n |].
  apply (index_glyph_by_priority modified_and_renamed).
  vm_compute. apply le_n.
Defined.

(** C4: a rename in the index with a change in the working directory. *)
Lemma short_entry_line_run :
  exists paths,
    List.map Some paths
    = short_line_paths "R" "M" (Some "a.txt") (Some "b.txt") (Some "b.txt") /\
    "RM a.txt b.txt" ++ nl
    = short_line "R" "M" paths (short_extra clean_on_main renamed_then_modified).
Proof.
  apply (short_entry_line clean_on_main renamed_then_modified).
  - reflexivity.
  - reflexivity.
  - reflexivity.
  - discriminate.
Defined.

(** C5: the hint of a list with a deletion in the working directory is
    not the line with two closing parentheses. *)
Lemma unstaged_hint_not_as_specified :
  List.existsb wt_deleted [deleted_in_workdir] = true /\
  (exists tail,
     stdout (print_long clean_on_main [deleted_in_workdir])
     = unstaged_title ++ unstaged_hint true ++ tail) /\
  ~ (exists tail,
       stdout (print_long clean_on_main [deleted_in_workdir])
       = unstaged_title ++ unstaged_hint_as_specified true ++ tail).
Proof.
  split; [reflexivity |]. split.
  - eexists. vm_compute. reflexivity.
  - intros [tail H]. vm_compute in H. discriminate H.
Qed.

Lemma unstaged_header_hint_run :
  true = List.existsb wt_deleted [deleted_in_workdir] /\
  (exists rest r,
     print_long clean_on_main [deleted_in_workdir]
     = ("" ++ stdout (long_workdir_pass true [deleted_in_workdir]) ++ rest, r)) /\
  (stdout (long_workdir_pass true [deleted_in_workdir]) = "" \/
   exists tail,
     stdout (long_workdir_pass true [deleted_in_workdir])
     = unstaged_title ++ unstaged_hint true ++ tail).
Proof.
  apply (unstaged_header_hint clean_on_main [deleted_in_workdir] "" false true).
  reflexivity.
Defined.

(** C6: an unchanged entry between two changed ones. *)
Lemma current_entry_invisible_run :
  print_long clean_on_main
    ([staged_then_deleted] ++ unchanged :: [untracked])%list
  = print_long clean_on_main ([staged_then_deleted] ++ [untracked])%list /\
  print_short clean_on_main
    ([staged_then_deleted] ++ unchanged :: [untracked])%list
  = print_short clean_on_main ([staged_then_deleted] ++ [untracked])%list.
Proof.
  apply (current_entry_invisible clean_on_main).
  reflexivity.
Defined.

(** C7: the banner of the branch main. *)
Lemma show_branch_outcomes_run :
  exists name,
    show_branch clean_on_main FORMAT_SHORT
    = ((if FORMAT_SHORT =? FORMAT_LONG then "# On branch " else "## ")
       ++ name ++ nl, Ret tt) /\
    ("refs/heads/main" = "refs/heads/" ++ name \/
     (forall rest, "refs/heads/main" <> "refs/heads/" ++ rest) /\
     name = "refs/heads/main").
Proof.
  apply (proj1 (proj2 (show_branch_outcomes clean_on_main FORMAT_SHORT 0
                         (Some {| git_reference_name := "refs/heads/main" |})
                         eq_refl))
           {| git_reference_name := "refs/heads/main" |});
    reflexivity.
Defined.

(** C9: a list whose entries carry the deltas that are read. *)
Lemma deltas_present_no_null_read_run :
  Forall long_deltas_present [staged_then_deleted; untracked] /\
  outcome (print_long clean_on_main [staged_then_deleted; untracked])
  <> Fault NullDeref.
Proof.
  assert (H : Forall long_deltas_present [staged_then_deleted; untracked]).
  { repeat constructor; cbn; discriminate. }
  split; [exact H |].
  apply (proj1 (deltas_present_no_null_read clean_on_main
                  [staged_then_deleted; untracked])).
  exact H.
Defined.

(** ** More concrete runs *)

(** X1: [status -z a.txt]. *)
Lemma parse_opts_normal_run :
  exists o,
    parse_opts main_opts ["status"; "-z"; "a.txt"] = ("", Ret o) /\
    opts_normal o.
Proof.
  eexists. split; [reflexivity |].
  apply (parse_opts_normal ["status"; "-z"; "a.txt"] "").
  reflexivity.
Defined.

(** X2: two paths around an option. *)
Lemma parse_opts_query_pathspec_run :
  exists o,
    parse_opts main_opts ["status"; "a.txt"; "-s"; "b.txt"] = ("", Ret o) /\
    strings (so_pathspec (statusopt o)) = ["a.txt"; "b.txt"] /\
    count (so_pathspec (statusopt o)) = 2.
Proof.
  eexists. split; [reflexivity |].
  apply (parse_opts_query_pathspec ["status"; "a.txt"; "-s"; "b.txt"] "").
  reflexivity.
Defined.

(** X3: the last format option wins over -z and over the earlier ones. *)
Lemma parse_opts_format_run :
  exists o,
    parse_opts main_opts ["status"; "-z"; "--long"; "-s"; "-z"] = ("", Ret o) /\
    format o = FORMAT_SHORT.
Proof.
  eexists. split; [reflexivity |].
  apply (parse_opts_format ["status"; "-z"; "--long"; "-s"; "-z"] "").
  - repeat constructor.
  - reflexivity.
Defined.

(** X4: the last --git-dir wins. *)
Lemma parse_opts_repodir_run :
  exists o,
    parse_opts main_opts ["status"; "--git-dir=/a"; "-s"; "--git-dir=/b"; "x"]
    = ("", Ret o) /\
    repodir o = "/b".
Proof.
  eexists. split; [reflexivity |].
  apply (proj2 (parse_opts_repodir
                  ["status"; "--git-dir=/a"; "-s"; "--git-dir=/b"; "x"] "" _
                  eq_refl)
           ["--git-dir=/a"; "-s"] "/b" ["x"]).
  - reflexivity.
  - repeat constructor. intros [dir H]. discriminate H.
Defined.

(** X7: -z after -s, and -z first. *)
Lemma zterm_only_chooses_format_run :
  main (library_at clean_on_main) (["status"; "-s"] ++ "-z" :: ["a.txt"])%list
  = main (library_at clean_on_main) (["status"; "-s"] ++ ["a.txt"])%list.
Proof.
  apply (proj2 (zterm_only_chooses_format (library_at clean_on_main) "status"
                  ["-s"] ["a.txt"] ltac:(repeat constructor))).
  left. discriminate.
Defined.

(** X8: one deletion in the working directory, nothing staged. *)
Lemma long_trailer_rule_run :
  exists body,
    long_sections [deleted_in_workdir] = (body, Ret (false, true)) /\
    print_long clean_on_main [deleted_in_workdir]
    = (body ++ long_trailer, Ret tt).
Proof.
  exists (stdout (long_sections [deleted_in_workdir])).
  split; [reflexivity |].
  exact (proj2 (long_trailer_rule clean_on_main [deleted_in_workdir]
                  (stdout (long_sections [deleted_in_workdir]))
                  (false, true) eq_refl)).
Defined.

(** X9: a rename. *)
Lemma print_change_line_run :
  print_change "renamed:  " rename_a_to_b
  = (change_line "renamed:  " "a.txt" "b.txt", Ret tt).
Proof.
  apply (proj1 (print_change_line "renamed:  " rename_a_to_b));
    reflexivity.
Defined.

(** X11: an untracked file is left to the second pass. *)
Lemma short_passes_disjoint_run :
  short_entry clean_on_main untracked tt = ret tt.
Proof.
  apply (proj1 (short_passes_disjoint clean_on_main untracked)).
  reflexivity.
Defined.

(** X12: one untracked file among other entries. *)
Lemma untracked_listing_run :
  for_each short_untracked_entry [staged_then_deleted; untracked] tt
  = (lines short_untracked_line ["u.txt"], Ret tt) /\
  for_each long_untracked_entry [staged_then_deleted; untracked] false
  = (untracked_header ++ lines long_untracked_line ["u.txt"], Ret true).
Proof.
  apply (untracked_listing [staged_then_deleted; untracked] ["u.txt"]).
  reflexivity.
Defined.

(** X13: an untracked entry without its delta stops the short renderer
    on a bad read. *)
Lemma renderers_never_fatal_run :
  outcome (print_short clean_on_main [untracked_without_delta])
  = Fault NullDeref /\
  bad_read NullDeref.
Proof.
  split; [reflexivity |].
  apply (proj2 (renderers_never_fatal clean_on_main
                  [untracked_without_delta] NullDeref)).
  reflexivity.
Defined.

(** X14: -uno, then -uall. *)
Lemma parse_opts_untracked_run :
  exists o,
    parse_opts main_opts ["status"; "-uno"; "--ignored"; "-uall"] = ("", Ret o) /\
    test (flags (statusopt o)) GIT_STATUS_OPT_INCLUDE_UNTRACKED = true.
Proof.
  eexists. split; [reflexivity |].
  apply (parse_opts_untracked ["status"; "-uno"; "--ignored"; "-uall"] "").
  - repeat split; discriminate.
  - repeat constructor.
  - reflexivity.
Defined.

(** X15: the long format on a clean repository. *)
Lemma long_output_starts_with_branch_run :
  exists rest,
    stdout (main (library_at clean_on_main) ["status"; "--long"])
    = "# On branch " ++ rest.
Proof.
  apply (long_output_starts_with_branch (library_at clean_on_main)
           ["status"; "--long"] "" _ clean_on_main [] 0
           (Some {| git_reference_name := "refs/heads/main" |}) eq_refl);
    try reflexivity.
  left. split; [reflexivity | discriminate].
Defined.


(** C8: eight paths are stored, in order; a ninth is fatal. *)
Lemma pathspec_limit_run :
  (exists o,
     parse_opts main_opts eight_paths = ("", Ret o) /\
     pathspec o = ["a"; "b"; "c"; "d"; "e"; "f"; "g"; "h"] /\
     npaths o = 8) /\
  parse_opts main_opts nine_paths
  = ("", Fault (Fatal "Example only supports a limited pathspec" None)).
Proof.
  split.
  - destruct (proj1 (pathspec_limit eight_paths)) as [o [Ho [Hp Hn]]].
    + repeat (apply Forall_cons;
              [first [ left; reflexivity
                     | right; left; cbn; tauto
                     | right; right; eexists; reflexivity ] |]).
      apply Forall_nil.
    + cbn. repeat constructor.
    + exists o. split; [exact Ho |]. split; [exact Hp |].
      rewrite Hn, Hp. reflexivity.
  - apply (proj1 (proj2 (proj2 (proj2 (pathspec_limit nine_paths))))
             ["a"; "b"; "c"; "d"; "-s"; "e"; "f"; "g"; "h"] "i" []).
    + reflexivity.
    + repeat (apply Forall_cons;
              [first [ left; reflexivity | right; left; cbn; tauto ] |]).
      apply Forall_nil.
    + reflexivity.
    + reflexivity.
Defined.


(** C1: the four command lines, on the clean repository on main. *)
Lemma short_banner_on_request_run :
  main (library_at clean_on_main) ["status"; "-s"] = ("", Ret 0) /\
  main (library_at clean_on_main) ["status"; "-s"; "-b"]
  = ("## main" ++ nl, Ret 0) /\
  main (library_at clean_on_main) ["status"; "--porcelain"; "--branch"]
  = ("## main" ++ nl, Ret 0) /\
  main (library_at clean_on_main) ["status"] = ("# On branch main" ++ nl, Ret 0).
Proof.
  assert (Hclean : forall query, exists entries,
            git_status_list_new clean_on_main query = (0, Some entries) /\
            clean entries).
  { intros query. exists []. split; [reflexivity | constructor]. }
  split; [| split; [| split]].
  - apply (short_banner_on_request (library_at clean_on_main) clean_on_main
             ["status"; "-s"] "" _ ltac:(repeat constructor) eq_refl
             eq_refl eq_refl eq_refl Hclean).
  - apply (short_banner_on_request (library_at clean_on_main) clean_on_main
             ["status"; "-s"; "-b"] "" _ ltac:(repeat constructor) eq_refl
             eq_refl eq_refl eq_refl Hclean).
  - apply (short_banner_on_request (library_at clean_on_main) clean_on_main
             ["status"; "--porcelain"; "--branch"] "" _
             ltac:(repeat constructor) eq_refl
             eq_refl eq_refl eq_refl Hclean).
  - apply (short_banner_on_request (library_at clean_on_main) clean_on_main
             ["status"] "" _ ltac:(repeat constructor) eq_refl
             eq_refl eq_refl eq_refl Hclean).
Defined.


(** X5: an option the parser does not know, and a bare repository. *)
Lemma main_fatal_ends_run :
  (refusal (Fatal "Unsupported option" (Some "-q")) /\
   main (library_at clean_on_main) ["status"; "-q"]
   = ("", Fault (Fatal "Unsupported option" (Some "-q")))) /\
  main (library_at bare_repository) ["status"; "-s"]
  = ("", Fault (Fatal "Cannot report status on bare repository"
                  (Some "/srv/project.git/"))).
Proof.
  split.
  - apply (proj2 (proj1 (main_fatal_ends (library_at clean_on_main)
                           ["status"; "-q"]) "" _ eq_refl)).
  - apply (proj1 (proj2 (proj2 (main_fatal_ends (library_at bare_repository)
                                  ["status"; "-s"])
                           "" _ eq_refl))
             bare_repository);
      reflexivity.
Defined.


(** C10: a conflicted entry, alone in the list and after a staged one. *)
Lemma conflicted_only_entry_run :
  short_glyphs (status conflicted) = (" "%char, " "%char) /\
  print_short clean_on_main [conflicted] = ("   c.txt" ++ nl, Ret tt) /\
  print_short clean_on_main [staged_then_deleted; conflicted; untracked]
  = ("AD a.txt" ++ nl ++ "   c.txt" ++ nl ++ "?? u.txt" ++ nl, Ret tt) /\
  print_long clean_on_main [conflicted] = ("", Ret tt).
Proof.
  destruct (conflicted_only_entry clean_on_main conflicted "c.txt"
              eq_refl eq_refl)
    as [Hg [_ [Hshort [_ [_ [_ [_ [_ Hlong]]]]]]]].
  split; [exact Hg |].
  split; [| split].
  - destruct (Hshort [] [] "" eq_refl) as [rest [r [Hwith Hwithout]]].
    cbn [app] in Hwith. rewrite Hwith. vm_compute in Hwithout.
    injection Hwithout as <- <-. reflexivity.
  - destruct (Hshort [staged_then_deleted] [untracked] _ eq_refl)
      as [rest [r [Hwith Hwithout]]].
    cbn [app] in Hwith. rewrite Hwith. vm_compute in Hwithout. vm_compute.
    injection Hwithout as <- <-. reflexivity.
  - rewrite (Hlong [] [] : print_long _ [_] = _). reflexivity.
Defined.

(** X10: an ignored directory, alone in the list and after another. *)
Lemma ignored_entry_run :
  short_glyphs (status ignored_directory) = ("!"%char, "!"%char) /\
  print_short clean_on_main [ignored_directory] = ("!! build/" ++ nl, Ret tt) /\
  print_long clean_on_main [ignored_directory]
  = (ignored_header ++ "#" ++ tab ++ "build/" ++ nl, Ret tt) /\
  print_long clean_on_main [untracked; ignored_directory; ignored_directory]
  = (untracked_header ++ "#" ++ tab ++ "u.txt" ++ nl
     ++ ignored_header ++ "#" ++ tab ++ "build/" ++ nl
     ++ "#" ++ tab ++ "build/" ++ nl, Ret tt).
Proof.
  destruct (ignored_entry clean_on_main ignored_directory) as [Hshort Hlong].
  destruct (Hshort eq_refl) as [Hg Hline].
  destruct (Hline "build/" eq_refl) as [_ Hprint].
  destruct (Hlong eq_refl) as [_ [_ [_ [_ [_ Hfourth]]]]].
  destruct (Hfourth "build/" eq_refl) as [_ [_ Hexact]].
  split; [exact Hg |].
  split; [| split].
  - destruct (Hprint [] [] "" eq_refl) as [rest [r [Hwith Hwithout]]].
    cbn [app] in Hwith. rewrite Hwith. vm_compute in Hwithout.
    injection Hwithout as <- <-. reflexivity.
  - rewrite (Hexact [] [] "" (false, false) "" false "" true
               eq_refl eq_refl eq_refl : print_long _ [_] = _).
    reflexivity.
  - change ([untracked; ignored_directory; ignored_directory])
      with ([untracked] ++ ignored_directory :: [ignored_directory])%list.
    rewrite (Hexact [untracked] [ignored_directory]
               (untracked_header ++ "#" ++ tab ++ "u.txt" ++ nl)
               (false, false) "" false ("#" ++ tab ++ "build/" ++ nl) true
               eq_refl eq_refl eq_refl).
    reflexivity.
Defined.
